(** * Portfolio valuation: the [updateChartV2] computation of [src/pages/showResults.js]

    A shallow embedding of the chart computation of the [ShowResults]
    component (TwelveData variant), and the properties of the share
    allocation, the date-union walk with carry-forward, and the assembled
    chart series.

    Conventions of the embedding:
    - JavaScript numbers are IEEE 754 binary64 values: Rocq's primitive
      [float], with its [+], [*] and [/].
    - A JavaScript [Map] or plain object keyed by strings is a [gmap string _];
      a missing key reads as [None] (JavaScript's [undefined]).
    - The [Set] of dates keeps insertion order, as [Array.from] observes it:
      a duplicate-free list.
    - Reading a property of [undefined] throws a [TypeError]: computations
      that can do so live in the [completion] monad.
    - React state is a record threaded through [updateChartV2].

    The Marketstack variant of the component ([updateChart]) and its copy in
    the page module are embedded in the module [Marketstack]. *)

From Stdlib Require Import ZArith PrimFloat FloatOps SpecFloat FloatAxioms.
From Stdlib Require Import Ascii String DecimalString Sorting.Sorted.
From stdpp Require Import gmap strings list sorting.

Open Scope Z_scope.

(** ** Numbers and their display *)

Module Number.

(** [undefined] used as an operand of [*] or [+] converts to [NaN]. *)
Definition ofProperty (v : option float) : float := default PrimFloat.nan v.

(** Decimal digits of a non-negative integer. *)
Definition decimal (n : Z) : string :=
  NilZero.string_of_uint (N.to_uint (Z.to_N n)).

Definition twoDigits (n : Z) : string :=
  decimal (n / 10) +:+ decimal (n mod 10).

(** [c] rounds to the binary64 value [m * 2^e] (round to nearest, ties to
    even): it lies within half a gap of it. *)
Definition inInterval (m : positive) (e c : Z) : bool :=
  let v := Z.pos m * 2 ^ e in
  let below := if Z.pos m =? 2 ^ 52 then 2 ^ (e - 1) else 2 ^ e in
  if Z.even (Z.pos m)
  then (2 * v - below <=? 2 * c) && (2 * c <=? 2 * v + 2 ^ e)
  else (2 * v - below <? 2 * c) && (2 * c <? 2 * v + 2 ^ e).

(** The digits [s] and decimal exponent [p] of [Number::toString] for an
    integral value [m * 2^e]: the largest [p] for which some [s * 10^p]
    reads back as the value, the closest such [s], the even one of two
    equally close. *)
Fixpoint shortestDigits (fuel : nat) (m : positive) (e : Z) : Z * Z :=
  let v := Z.pos m * 2 ^ e in
  match fuel with
  | O => (v, 0)
  | S fuel' =>
      let p := Z.of_nat fuel in
      let lo := v / 10 ^ p in
      let hi := lo + 1 in
      let okLo := (0 <? lo) && inInterval m e (lo * 10 ^ p) in
      let okHi := inInterval m e (hi * 10 ^ p) in
      if okLo && okHi
      then (if v - lo * 10 ^ p <? hi * 10 ^ p - v then (lo, p)
            else if hi * 10 ^ p - v <? v - lo * 10 ^ p then (hi, p)
            else if Z.even lo then (lo, p) else (hi, p))
      else if okLo then (lo, p)
      else if okHi then (hi, p)
      else shortestDigits fuel' m e
  end.

(** [Number::toString] of a value not below [10^21]: exponent notation. *)
Definition exponential (m : positive) (e : Z) : string :=
  let '(s, p) := shortestDigits 330 m e in
  let d := decimal s in
  let n := Z.of_nat (String.length d) + p in
  match d with
  | EmptyString => EmptyString
  | String c EmptyString => String c ("e+" +:+ decimal (n - 1))
  | String c rest => String c ("." +:+ rest +:+ "e+" +:+ decimal (n - 1))
  end.

(** The integer [n] for which [n / 100] is closest to [m * 2^e], the larger
    one on a tie. *)
Definition hundredths (m : positive) (e : Z) : Z :=
  if 0 <=? e then 100 * Z.pos m * 2 ^ e
  else (200 * Z.pos m + 2 ^ (- e)) / 2 ^ (1 - e).

(** [x.toFixed(2)] (ECMAScript, Number.prototype.toFixed): a value that is
    not finite, or not below [10^21] in magnitude, prints as
    [Number::toString] does; any other as sign, integer digits, a point and
    two fraction digits. *)
Definition toFixed2 (x : float) : string :=
  match Prim2SF x with
  | S754_nan => "NaN"
  | S754_infinity s => if s then "-Infinity" else "Infinity"
  | S754_zero _ => "0.00"
  | S754_finite s m e =>
      let sign := if s then "-" else "" in
      if 10 ^ 21 <=? Z.pos m * 2 ^ e
      then sign +:+ exponential m e
      else
        let n := hundredths m e in
        sign +:+ decimal (n / 100) +:+ "." +:+ twoDigits (n mod 100)
  end.

(** The number a two-decimal string denotes, in hundredths. *)
Definition digitValue (c : ascii) : option Z :=
  let n := Z.of_nat (nat_of_ascii c) in
  if (48 <=? n) && (n <=? 57) then Some (n - 48) else None.

Fixpoint digitsValue (acc : Z) (s : string) : option Z :=
  match s with
  | EmptyString => Some acc
  | String "."%char rest => digitsValue acc rest
  | String c rest =>
      match digitValue c with
      | Some d => digitsValue (10 * acc + d) rest
      | None => None
      end
  end.

Definition hundredthsOf (s : string) : option Z :=
  match s with
  | String "-"%char rest => Z.opp <$> digitsValue 0 rest
  | _ => digitsValue 0 s
  end.

End Number.

(** ** Data *)

(** An entry of [portfolio.assets]. *)
Record asset := { symbol : string; portion : float }.

(** The [portfolio] prop of the component. *)
Record portfolio := {
  initial : float;
  startDate : string;
  assets : list asset
}.

(** An element of a symbol's [values] array.  [close] stands for the number
    the field converts to where the code multiplies or divides by it. *)
Record tradingDay := { datetime : string; close : float }.

(** The per-symbol object of the TwelveData response.  An error object has a
    [status] other than ["ok"] and may lack [values]. *)
Record payload := { status : string; values : option (list tradingDay) }.

(** A point of a chart series; [y] is the displayed string. *)
Record point := { x : string; y : string }.

(** An ApexCharts series. *)
Record series := { name : string; type : string; data : list point }.

(** An element of [finalStockValues]: a symbol and what [currentValues]
    holds for it. *)
Record stockValue := { sv_symbol : string; sv_value : option float }.

(** The default value of the [portfolio] prop. *)
#[local] Set Warnings "-inexact-float".
Definition samplePortfolio : portfolio :=
  {| initial := 32500.00%float;
     startDate := "2013-03-20T00:00:00.000Z";
     assets := [ {| symbol := "AAPL"; portion := 0.20%float |};
                 {| symbol := "GOOG"; portion := 0.50%float |};
                 {| symbol := "MSFT"; portion := 0.30%float |} ] |}.

(** ** Completions *)

Inductive error := TypeError (reading : string).

Inductive completion (A : Type) : Type :=
| Normal (a : A)
| Throw (e : error).
Arguments Normal {A} a.
Arguments Throw {A} e.

#[global] Instance completion_ret : MRet completion := @Normal.
#[global] Instance completion_bind : MBind completion :=
  λ A B f m, match m with Normal a => f a | Throw e => Throw e end.

(** Using a value that may be [undefined] as an object. *)
Definition defined {A} (reading : string) (v : option A) : completion A :=
  match v with
  | Some a => Normal a
  | None => Throw (TypeError reading)
  end.

(** [array.forEach(callback)], with the state the callback updates made
    explicit; a throwing callback ends the loop. *)
Fixpoint forEach {A S} (callback : S → A → completion S) (array : list A) (s : S)
  : completion S :=
  match array with
  | [] => Normal s
  | a :: rest => s' ← callback s a; forEach callback rest s'
  end.

(** ** The chart computation *)

Section Chart.

(** The time value of [new Date(date)], as the subtraction in the sort's
    comparator reads it.  Date parsing is the host's; the dates are taken to
    be valid ones. *)
Variable timeValue : string → Z.

(** [const stockSymbols = portfolio.assets.map((asset) => asset.symbol)] *)
Definition stockSymbols (portfolio : portfolio) : list string :=
  map symbol (assets portfolio).

(** The callback of the loop that fills [sharesBought]. *)
Definition buyShares (portfolio : portfolio) (stockData : gmap string payload)
    (sharesBought : gmap string float) (asset : asset)
  : completion (gmap string float) :=
  entry ← defined "values" (stockData !! symbol asset);
  assetData ← defined "length" (values entry);
  earliest ← defined "close" (last assetData);
  let initialPrice := close earliest in
  let amountInvested := (portion asset * initial portfolio)%float in
  mret (<[symbol asset := (amountInvested / initialPrice)%float]> sharesBought).

Definition sharesBought (portfolio : portfolio) (stockData : gmap string payload)
  : completion (gmap string float) :=
  forEach (buyShares portfolio stockData) (assets portfolio) ∅.

(** [allDates.add(date)]: a [Set] keeps its elements in insertion order. *)
Definition setAdd (date : string) (allDates : list string) : list string :=
  if decide (date ∈ allDates) then allDates else allDates ++ [date].

(** The callback of the inner loop that records a symbol's value on each of
    its trading days. *)
Definition recordTradingDay (sharesBought : gmap string float) (symbol : string)
    (st : gmap string (gmap string float) * list string) (tradingDay : tradingDay)
  : completion (gmap string (gmap string float) * list string) :=
  let '(stockValuesByDate, allDates) := st in
  let date := datetime tradingDay in
  let closingPrice := close tradingDay in
  let assetValue :=
    (Number.ofProperty (sharesBought !! symbol) * closingPrice)%float in
  byDate ← defined "set" (stockValuesByDate !! symbol);
  mret (<[symbol := <[date := assetValue]> byDate]> stockValuesByDate,
        setAdd date allDates).

Definition recordSymbol (stockData : gmap string payload)
    (sharesBought : gmap string float)
    (st : gmap string (gmap string float) * list string) (symbol : string)
  : completion (gmap string (gmap string float) * list string) :=
  entry ← defined "values" (stockData !! symbol);
  days ← defined "forEach" (values entry);
  forEach (recordTradingDay sharesBought symbol) days st.

(** [new Map(stockSymbols.map((symbol) => [symbol, v]))] *)
Definition mapOfSymbols {V} (v : V) (stockSymbols : list string) : gmap string V :=
  foldl (λ m symbol, <[symbol := v]> m) ∅ stockSymbols.

(** [stockValuesByDate] and [allDates] after the recording loops. *)
Definition recordValues (stockSymbols : list string) (stockData : gmap string payload)
    (sharesBought : gmap string float)
  : completion (gmap string (gmap string float) * list string) :=
  forEach (recordSymbol stockData sharesBought) stockSymbols
    (mapOfSymbols ∅ stockSymbols, []).

(** [const seriesNames = stockSymbols.concat(["Total"])] *)
Definition seriesNames (stockSymbols : list string) : list string :=
  stockSymbols ++ ["Total"].

(** The empty series object of each series name. *)
Definition emptySeries (seriesNames : list string) : gmap string series :=
  foldl (λ newChartSeries sName,
           <[sName := {| name := sName; type := "area"; data := [] |}]> newChartSeries)
        ∅ seriesNames.

(** [datesSorted.sort((a,b)=>(new Date(a) - new Date(b)))]: a stable sort by
    time value. *)
Fixpoint insertDate (a : string) (sorted : list string) : list string :=
  match sorted with
  | [] => [a]
  | b :: rest =>
      if timeValue a <=? timeValue b then a :: b :: rest
      else b :: insertDate a rest
  end.

Definition sortDates (dates : list string) : list string :=
  foldr insertDate [] dates.

(** The state of the walk over [datesSorted]. *)
Record walk := {
  currentValues : gmap string float;
  newChartSeries : gmap string series;
  portfolioValue : float
}.

(** [newChartSeries[sName].data.push(pt)] *)
Definition pushPoint (sName : string) (pt : point) (newChartSeries : gmap string series)
  : completion (gmap string series) :=
  s ← defined "data" (newChartSeries !! sName);
  mret (<[sName := {| name := name s; type := type s; data := data s ++ [pt] |}]>
          newChartSeries).

(** The callback of the first inner loop of the walk. *)
Definition visitSymbol (stockValuesByDate : gmap string (gmap string float))
    (date : string) (st : gmap string float * gmap string series) (symbol : string)
  : completion (gmap string float * gmap string series) :=
  let '(currentValues, newChartSeries) := st in
  byDate ← defined "has" (stockValuesByDate !! symbol);
  match byDate !! date with
  | Some value =>
      newChartSeries' ←
        pushPoint symbol {| x := date; y := Number.toFixed2 value |} newChartSeries;
      mret (<[symbol := value]> currentValues, newChartSeries')
  | None => mret (currentValues, newChartSeries)
  end.

(** The second inner loop: the sum of the symbols' current values. *)
Definition sumValues (currentValues : gmap string float) (stockSymbols : list string)
  : float :=
  foldl (λ portfolioValue symbol,
           (portfolioValue + Number.ofProperty (currentValues !! symbol))%float)
        0%float stockSymbols.

(** The callback of the walk: one date of [datesSorted]. *)
Definition visitDate (stockValuesByDate : gmap string (gmap string float))
    (stockSymbols : list string) (w : walk) (date : string) : completion walk :=
  '(currentValues, newChartSeries) ←
    forEach (visitSymbol stockValuesByDate date) stockSymbols
            (currentValues w, newChartSeries w);
  let portfolioValue := sumValues currentValues stockSymbols in
  newChartSeries' ←
    pushPoint "Total" {| x := date; y := Number.toFixed2 portfolioValue |} newChartSeries;
  mret {| currentValues := currentValues;
          newChartSeries := newChartSeries';
          portfolioValue := portfolioValue |}.

Definition startWalk (stockSymbols : list string) : walk :=
  {| currentValues := mapOfSymbols 0%float stockSymbols;
     newChartSeries := emptySeries (seriesNames stockSymbols);
     portfolioValue := 0%float |}.

(** What [updateChartV2] computes between reading the stock data and setting
    the component's state. *)
Record chart := {
  datesSorted : list string;
  final : walk
}.

Definition computeChart (portfolio : portfolio) (stockData : gmap string payload)
  : completion chart :=
  let stockSymbols := stockSymbols portfolio in
  sharesBought ← sharesBought portfolio stockData;
  '(stockValuesByDate, allDates) ← recordValues stockSymbols stockData sharesBought;
  let datesSorted := sortDates allDates in
  w ← forEach (visitDate stockValuesByDate stockSymbols) datesSorted
              (startWalk stockSymbols);
  mret {| datesSorted := datesSorted; final := w |}.

End Chart.

(** ** The component *)

(** The React state of [ShowResults] and the [rawStockData] ref. *)
Record component := {
  isLoading : bool;
  chartLoaded : bool;
  chartSeries : option (list (option series));
  finalTotalValue : float;
  finalStockValues : list stockValue;
  errMsg : string;
  rawStockData : option (gmap string payload)
}.

(** The state of a freshly mounted component ([finalStockValues] starts as
    an empty [Map], here the empty list). *)
Definition mounted : component :=
  {| isLoading := false; chartLoaded := false; chartSeries := None;
     finalTotalValue := 0%float; finalStockValues := []; errMsg := "";
     rawStockData := None |}.

Definition setIsLoading (v : bool) (c : component) : component :=
  {| isLoading := v; chartLoaded := chartLoaded c; chartSeries := chartSeries c;
     finalTotalValue := finalTotalValue c; finalStockValues := finalStockValues c;
     errMsg := errMsg c; rawStockData := rawStockData c |}.

Definition setChartLoaded (v : bool) (c : component) : component :=
  {| isLoading := isLoading c; chartLoaded := v; chartSeries := chartSeries c;
     finalTotalValue := finalTotalValue c; finalStockValues := finalStockValues c;
     errMsg := errMsg c; rawStockData := rawStockData c |}.

Definition setChartSeries (v : list (option series)) (c : component) : component :=
  {| isLoading := isLoading c; chartLoaded := chartLoaded c; chartSeries := Some v;
     finalTotalValue := finalTotalValue c; finalStockValues := finalStockValues c;
     errMsg := errMsg c; rawStockData := rawStockData c |}.

Definition setFinalTotalValue (v : float) (c : component) : component :=
  {| isLoading := isLoading c; chartLoaded := chartLoaded c; chartSeries := chartSeries c;
     finalTotalValue := v; finalStockValues := finalStockValues c;
     errMsg := errMsg c; rawStockData := rawStockData c |}.

Definition setFinalStockValues (v : list stockValue) (c : component) : component :=
  {| isLoading := isLoading c; chartLoaded := chartLoaded c; chartSeries := chartSeries c;
     finalTotalValue := finalTotalValue c; finalStockValues := v;
     errMsg := errMsg c; rawStockData := rawStockData c |}.

Definition setErrMsg (v : string) (c : component) : component :=
  {| isLoading := isLoading c; chartLoaded := chartLoaded c; chartSeries := chartSeries c;
     finalTotalValue := finalTotalValue c; finalStockValues := finalStockValues c;
     errMsg := v; rawStockData := rawStockData c |}.

Definition setRawStockData (v : gmap string payload) (c : component) : component :=
  {| isLoading := isLoading c; chartLoaded := chartLoaded c; chartSeries := chartSeries c;
     finalTotalValue := finalTotalValue c; finalStockValues := finalStockValues c;
     errMsg := errMsg c; rawStockData := Some v |}.

(** The component shows the chart when it is not loading and
    [chartLoaded && chartOptions && chartSeries] holds. *)
Definition chartRendered (c : component) : bool :=
  negb (isLoading c) && chartLoaded c && bool_decide (is_Some (chartSeries c)).

Section Component.

Variable timeValue : string → Z.

(** The contents of [twelve-data-sample-data.json], which the module loads. *)
Variable sampleData : gmap string payload.

(** [let useSampleData = true] *)
Definition useSampleData : bool := true.

(** [getRawStockData]: the cached data if any, else the sample data or the
    body of the HTTP response, [null] when the request failed. *)
Definition getRawStockData (response : Z * gmap string payload) (c : component)
  : option (gmap string payload) * component :=
  match rawStockData c with
  | Some cached => (Some cached, c)
  | None =>
      if useSampleData then (Some sampleData, setRawStockData sampleData c)
      else
        let '(status, jsonData) := response in
        if status =? 200 then (Some jsonData, setRawStockData jsonData c)
        else (None, setErrMsg "Sorry, but something went wrong." c)
  end.

(** The callback of the loop that checks every symbol's data; its [return]
    leaves the callback only. *)
Definition ensureRetrieved (stockData : gmap string payload) (c : component)
    (symbol : string) : component :=
  match stockData !! symbol with
  | Some entry =>
      if decide (status entry = "ok") then c
      else setErrMsg
             "Sorry, but data could not be retrieved for every stock in your portfolio." c
  | None =>
      setErrMsg
        "Sorry, but data could not be retrieved for every stock in your portfolio." c
  end.

(** The state updates that end [updateChartV2]. *)
Definition showChart (stockSymbols : list string) (w : walk) (c : component)
  : component :=
  let c := setChartSeries
             (map (λ sName, newChartSeries w !! sName) (seriesNames stockSymbols)) c in
  let c := setFinalStockValues
             (map (λ symbol,
                     {| sv_symbol := symbol;
                        sv_value := currentValues w !! symbol |})
                  stockSymbols) c in
  let c := setFinalTotalValue (portfolioValue w) c in
  let c := setChartLoaded true c in
  setIsLoading false c.

(** [updateChartV2], given the stock data in hand. *)
Definition chartFrom (portfolio : portfolio) (stockData : gmap string payload)
    (c : component) : component * completion () :=
  let stockSymbols := stockSymbols portfolio in
  let c := foldl (ensureRetrieved stockData) c stockSymbols in
  match computeChart timeValue portfolio stockData with
  | Throw e => (c, Throw e)
  | Normal result => (showChart stockSymbols (final result) c, Normal ())
  end.

Definition updateChartV2 (portfolio : portfolio) (response : Z * gmap string payload)
    (c : component) : component * completion () :=
  let c := setIsLoading true c in
  let '(stockData, c) := getRawStockData response c in
  match stockData with
  | None => (c, Normal ())
  | Some stockData => chartFrom portfolio stockData c
  end.

End Component.

(** ** Dates of the form YYYY-MM-DD *)

Module IsoDate.

(** Days from 1970-01-01 to the given civil date. *)
Definition daysFromCivil (y m d : Z) : Z :=
  let y' := if m <=? 2 then y - 1 else y in
  let era := y' / 400 in
  let yoe := y' - era * 400 in
  let mp := (m + 9) mod 12 in
  let doy := (153 * mp + 2) / 5 + d - 1 in
  let doe := yoe * 365 + yoe / 4 - yoe / 100 + doy in
  era * 146097 + doe - 719468.

Definition field (s : string) (start len : nat) : Z :=
  default 0 (Number.digitsValue 0 (String.substring start len s)).

(** The time value of [new Date(s)] for a date-only string [s]: midnight UTC
    of that day, in milliseconds. *)
Definition timeValue (s : string) : Z :=
  86400000 * daysFromCivil (field s 0 4) (field s 5 2) (field s 8 2).

End IsoDate.

(** ** What the input says *)

(** The trading days of a symbol, in the order of the response. *)
Definition daysOf (stockData : gmap string payload) (s : string) : list tradingDay :=
  default [] (stockData !! s ≫= values).

(** The symbol's quote on a date: the last one listed, should the response
    repeat a date. *)
Definition quoteOn (stockData : gmap string payload) (s d : string) : option tradingDay :=
  last (filter (λ q, datetime q = d) (daysOf stockData s)).

(** The symbol's holding value on a date it has a quote on. *)
Definition valueOn (shares : gmap string float) (stockData : gmap string payload)
    (s d : string) : option float :=
  (λ q, (Number.ofProperty (shares !! s) * close q)%float) <$> quoteOn stockData s d.

(** Every date of every symbol, with repetitions. *)
Definition unionDates (stockData : gmap string payload) (symbols : list string)
  : list string :=
  symbols ≫= (λ s, datetime <$> daysOf stockData s).

(** The value carried through [dates]: that of the last date with a value,
    zero if there is none. *)
Definition lastKnown (valueOf : string → option float) (dates : list string) : float :=
  foldl (λ v d, default v (valueOf d)) 0%float dates.

(** Data was retrieved for every symbol: a payload with a non-empty array. *)
Definition retrieved (stockData : gmap string payload) (symbols : list string) : Prop :=
  ∀ s, s ∈ symbols →
    ∃ entry days, stockData !! s = Some entry ∧ values entry = Some days ∧ days ≠ [].

(** The shares an asset buys: its part of the initial amount over the close
    of the last listed trading day. *)
Definition purchase (portfolio : portfolio) (stockData : gmap string payload)
    (a : asset) : float :=
  (portion a * initial portfolio
   / Number.ofProperty (close <$> last (daysOf stockData (symbol a))))%float.

(** Orders on dates, by time value. *)
Definition notAfter (timeValue : string → Z) (a b : string) : Prop :=
  timeValue a ≤ timeValue b.
Definition before (timeValue : string → Z) (a b : string) : Prop :=
  timeValue a < timeValue b.

(** A response lists a symbol's trading days latest first. *)
Definition descending (timeValue : string → Z) (days : list tradingDay) : Prop :=
  StronglySorted (λ q q', timeValue (datetime q') ≤ timeValue (datetime q)) days.

(** The walk of [updateChartV2] over the dates [dates], from the state the
    code starts it in. *)
Definition walkTo (portfolio : portfolio) (stockData : gmap string payload)
    (dates : list string) : completion walk :=
  let stockSymbols := stockSymbols portfolio in
  shares ← sharesBought portfolio stockData;
  '(stockValuesByDate, _) ← recordValues stockSymbols stockData shares;
  forEach (visitDate stockValuesByDate stockSymbols) dates (startWalk stockSymbols).

(** ** The points a walk pushes *)

Section Emitted.

Variable valueOf : string → string → option float.
Variable symbols : list string.

(** Pushed to the series [n] by the symbols that have a value on [d]. *)
Definition symbolPoints (n d : string) : list point :=
  symbols ≫= (λ s,
    if decide (s = n)
    then match valueOf s d with
         | Some v => [{| x := d; y := Number.toFixed2 v |}]
         | None => []
         end
    else []).

(** The sum of the symbols' values carried through [upto]. *)
Definition totalOf (upto : list string) : float :=
  foldl (λ total s, (total + lastKnown (valueOf s) upto)%float) 0%float symbols.

(** Pushed to the series [n] as the total of the date [d] that ends [upto]. *)
Definition totalPoints (n : string) (upto : list string) (d : string) : list point :=
  if decide (n = "Total")
  then [{| x := d; y := Number.toFixed2 (totalOf upto) |}]
  else [].

(** All points pushed to [n] over [dates], walked after [visited]. *)
Fixpoint emittedFrom (n : string) (visited dates : list string) : list point :=
  match dates with
  | [] => []
  | d :: rest =>
      symbolPoints n d ++ totalPoints n (visited ++ [d]) d
        ++ emittedFrom n (visited ++ [d]) rest
  end.

End Emitted.

(** The state of a walk that has visited [visited]: every symbol's current
    value is its last known one, every series holds the points pushed so
    far, and the portfolio value is the last total. *)
Definition walked (valueOf : string → string → option float) (symbols : list string)
    (visited : list string) (w : walk) : Prop :=
  (∀ s, s ∈ symbols → currentValues w !! s = Some (lastKnown (valueOf s) visited))
  ∧ (∀ n, n ∈ seriesNames symbols →
       newChartSeries w !! n =
         Some {| name := n; type := "area";
                 data := emittedFrom valueOf symbols n [] visited |})
  ∧ portfolioValue w =
      match visited with
      | [] => 0%float
      | _ => totalOf valueOf symbols visited
      end.

(** ** What the series show *)

(** The hundredths a series shows on a date: the sum over its points there. *)
Definition shownOn (sr : option series) (d : string) : Z :=
  foldr Z.add 0
    (omap (λ pt, if decide (x pt = d) then Number.hundredthsOf (y pt) else None)
          (default [] (data <$> sr))).

(** The Total series agrees on [d] with the sum of the symbols' series, up
    to one hundredth. *)
Definition agreesOn (newChartSeries : gmap string series) (symbols : list string)
    (d : string) : Prop :=
  Z.abs (shownOn (newChartSeries !! "Total") d
         - foldr (λ s sum, shownOn (newChartSeries !! s) d + sum) 0 symbols) ≤ 1.

(** Some symbol has no payload, or one whose status is not ["ok"]. *)
Definition anyMissing (stockData : gmap string payload) (symbols : list string) : bool :=
  existsb (λ s, match stockData !! s with
                | Some entry => negb (bool_decide (status entry = "ok"))
                | None => true
                end) symbols.

(** A checkable form of [retrieved]. *)
Definition retrievedb (stockData : gmap string payload) (symbols : list string) : bool :=
  forallb (λ s, match stockData !! s ≫= values with
                | Some (_ :: _) => true
                | _ => false
                end) symbols.

(** A checkable form of [descending]. *)
Fixpoint descendingb (timeValue : string → Z) (days : list tradingDay) : bool :=
  match days with
  | [] => true
  | q :: rest =>
      forallb (λ q', timeValue (datetime q') <=? timeValue (datetime q)) rest
      && descendingb timeValue rest
  end.

(** ** Scenarios *)

Module Scenario.

Definition d1 : string := "2023-01-01".
Definition d2 : string := "2023-02-01".
Definition d3 : string := "2023-03-01".

Definition day (d : string) (c : float) : tradingDay :=
  {| datetime := d; close := c |}.

Definition ok (days : list tradingDay) : payload :=
  {| status := "ok"; values := Some days |}.

Definition holding (s : string) (part : float) : asset :=
  {| symbol := s; portion := part |}.

(** One symbol holding everything. *)
Definition planX : portfolio :=
  {| initial := 1000%float; startDate := "2023-01-01T00:00:00.000Z";
     assets := [holding "X" 1%float] |}.

(** Its quotes as TwelveData lists them, latest first. *)
Definition dataX : gmap string payload :=
  {[ "X" := ok [day d2 150%float; day d1 100%float] ]}.

(** The same quotes listed earliest first. *)
Definition dataXascending : gmap string payload :=
  {[ "X" := ok [day d1 100%float; day d2 150%float] ]}.

(** The same quotes under an error status. *)
Definition dataXerror : gmap string payload :=
  {[ "X" := {| status := "error";
               values := Some [day d2 150%float; day d1 100%float] |} ]}.

(** Two symbols, the second without a quote on the second date. *)
Definition planXY : portfolio :=
  {| initial := 200%float; startDate := "2023-01-01T00:00:00.000Z";
     assets := [holding "X" 0.5%float; holding "Y" 0.5%float] |}.

Definition dataXY : gmap string payload :=
  {[ "X" := ok [day d2 200%float; day d1 100%float];
     "Y" := ok [day d1 50%float] ]}.

(** A on the first and third date, B on all three. *)
Definition planAB : portfolio :=
  {| initial := 200%float; startDate := "2023-01-01T00:00:00.000Z";
     assets := [holding "A" 0.5%float; holding "B" 0.5%float] |}.

Definition dataAB : gmap string payload :=
  {[ "A" := ok [day d3 120%float; day d1 100%float];
     "B" := ok [day d3 70%float; day d2 60%float; day d1 50%float] ]}.


(** Four symbols bought at 1, all quoted at 0.004 on the second date. *)
Definition planFour : portfolio :=
  {| initial := 4%float; startDate := "2023-01-01T00:00:00.000Z";
     assets := [holding "P" 0.25%float; holding "Q" 0.25%float;
                holding "R" 0.25%float; holding "S" 0.25%float] |}.

Definition dataFour : gmap string payload :=
  {[ "P" := ok [day d2 0.004%float; day d1 1%float];
     "Q" := ok [day d2 0.004%float; day d1 1%float];
     "R" := ok [day d2 0.004%float; day d1 1%float];
     "S" := ok [day d2 0.004%float; day d1 1%float] ]}.

(** The chart a scenario computes. *)
Definition chartOf (portfolio : portfolio) (stockData : gmap string payload) : chart :=
  match computeChart IsoDate.timeValue portfolio stockData with
  | Normal c => c
  | Throw _ => {| datesSorted := []; final := startWalk [] |}
  end.

End Scenario.

(** ** What a displayed value says *)

(** The character of the decimal digit [j]. *)
Definition digitChar (j : Z) : ascii := ascii_of_N (48 + Z.to_N j).

(** [n] hundredths written with two decimals: the sign, the integer part in
    decimal, a point, the tenths and the hundredths. *)
Definition inHundredths (negative : bool) (n : Z) : string :=
  (if negative then "-" else "")
    +:+ NilZero.string_of_uint (N.to_uint (Z.to_N (n / 100)))
    +:+ "."
    +:+ String (digitChar (n mod 100 / 10)) (String (digitChar (n mod 10)) EmptyString).

(** [n / 100] is the multiple of a hundredth closest to [m * 2^e], the
    larger of two equally close ones. *)
Definition nearestHundredth (m : positive) (e n : Z) : Prop :=
  let num := Z.pos m * 2 ^ Z.max 0 e in
  let den := 2 ^ Z.max 0 (- e) in
  200 * num - den < 2 * den * n ≤ 200 * num + den.

(** The value is finite and below [10^21] in magnitude. *)
Definition displayable (v : float) : Prop :=
  match Prim2SF v with
  | S754_zero _ => True
  | S754_finite _ m e => Z.pos m * 2 ^ Z.max 0 e < 10 ^ 21
  | _ => False
  end.

(** The text is the value rounded to the nearest hundredth, written with
    exactly two decimals. *)
Definition twoDecimals (v : float) (text : string) : Prop :=
  match Prim2SF v with
  | S754_zero _ => text = "0.00"
  | S754_finite s m e => ∃ n, nearestHundredth m e n ∧ text = inHundredths s n
  | _ => False
  end.

(** [n] written on [width] decimal digits. *)
Fixpoint digitsOf (width : nat) (n : Z) : string :=
  match width with
  | O => EmptyString
  | S width' => digitsOf width' (n / 10) +:+ String (digitChar (n mod 10)) EmptyString
  end.

(** ** Date strings for the quote APIs *)

(** What [formatDateStr] reads of a [Date]: the results of its
    [getUTCFullYear], [getUTCMonth] (0 for January) and [getUTCDate]. *)
Record utcDate := { getUTCFullYear : Z; getUTCMonth : Z; getUTCDate : Z }.

(** [n.toString()] of an integer. *)
Definition integerToString (n : Z) : string :=
  if n <? 0 then "-" +:+ Number.decimal (- n) else Number.decimal n.

Fixpoint zeros (n : nat) : string :=
  match n with
  | O => EmptyString
  | S n' => String "0" (zeros n')
  end.

(** [s.padStart(targetLength, '0')] *)
Definition padStart (s : string) (targetLength : nat) : string :=
  zeros (targetLength - String.length s) +:+ s.

(** [formatDateStr] *)
Definition formatDateStr (date : utcDate) : string :=
  let y := padStart (integerToString (getUTCFullYear date)) 4 in
  let m := padStart (integerToString (getUTCMonth date)) 2 in
  let d := padStart (integerToString (getUTCDate date)) 2 in
  y +:+ "-" +:+ m +:+ "-" +:+ d.

(** ** The Marketstack variant of the component *)

Module Marketstack.

(** [marketstackDateString], the same text as [formatDateStr]. *)
Definition marketstackDateString (date : utcDate) : string :=
  let y := padStart (integerToString (getUTCFullYear date)) 4 in
  let m := padStart (integerToString (getUTCMonth date)) 2 in
  let d := padStart (integerToString (getUTCDate date)) 2 in
  y +:+ "-" +:+ m +:+ "-" +:+ d.

(** A record of the response's [data] array: its [date], [symbol], [close]
    and [adj_close] fields. *)
Record datum := {
  datum_date : string;
  datum_symbol : string;
  datum_close : float;
  adj_close : float
}.

(** The response object; [eod_data] is its [data] property. *)
Record eodResponse := { eod_data : option (list datum) }.

(** A [{date, value}] object of [valueData] and [totalValue]. *)
Record dated := { dated_date : string; dated_value : float }.

(** [getAssetValue] *)
Definition getAssetValue (currentPrice initialPrice initialInvestment : float) : float :=
  (currentPrice * (initialInvestment / initialPrice))%float.

(** The three containers the loop over the data updates. *)
Record tally := {
  valueData : gmap string (list dated);
  totalValue : list dated;
  initialPrices : gmap string float
}.

(** The update of [totalValue] for one record: a new entry unless the last
    one has the record's date, then the asset value added to the last. *)
Definition addToTotal (totalValue : list dated) (date : string) (assetValue : float)
  : list dated :=
  let totalValue :=
    match last totalValue with
    | Some latest =>
        if decide (dated_date latest = date) then totalValue
        else totalValue ++ [{| dated_date := date; dated_value := 0%float |}]
    | None => totalValue ++ [{| dated_date := date; dated_value := 0%float |}]
    end in
  alter (λ latest, {| dated_date := dated_date latest;
                      dated_value := (dated_value latest + assetValue)%float |})
        (length totalValue - 1)%nat totalValue.

(** [new Map(portfolio.assets.map((asset) => [asset.symbol, asset.portion * portfolio.initial]))] *)
Definition initialValuesOf (portfolio : portfolio) : gmap string float :=
  foldl (λ m asset, <[symbol asset := (portion asset * initial portfolio)%float]> m)
        ∅ (assets portfolio).

(** [array.map(callback)] with a callback that may throw. *)
Fixpoint mapArray {A B} (callback : A → completion B) (array : list A)
  : completion (list B) :=
  match array with
  | [] => Normal []
  | a :: rest => b ← callback a; bs ← mapArray callback rest; mret (b :: bs)
  end.

(** [{x: datum.date, y: datum.value.toFixed(2)}] *)
Definition toPoint (datum : dated) : point :=
  {| x := dated_date datum; y := Number.toFixed2 (dated_value datum) |}.

(** The series built from the containers. *)
Definition seriesOf (stockSymbols : list string) (t : tally)
  : completion (list series) :=
  newChartSeries ←
    mapArray (λ symbol,
                values ← defined "map" (valueData t !! symbol);
                mret {| name := symbol; type := "area"; data := toPoint <$> values |})
             stockSymbols;
  mret (newChartSeries
          ++ [{| name := "Total Value"; type := "area";
                 data := toPoint <$> totalValue t |}]).

(** The callback of the [map] that builds [finalStockValues]. *)
Definition finalValueOf (t : tally) (symbol : string) : completion stockValue :=
  values ← defined "length" (valueData t !! symbol);
  latest ← defined "value" (last values);
  mret {| sv_symbol := symbol; sv_value := Some (dated_value latest) |}.

Section Loop.

(** The field the callback reads as [closingPrice]: [datum.adj_close] in the
    component, [datum.close] in the copy of it in the page module. *)
Variable closingPriceOf : datum → float.

(** The callback of the loop over the data. *)
Definition recordDatum (initialValues : gmap string float) (t : tally) (datum : datum)
  : completion tally :=
  let date := datum_date datum in
  let symbol := datum_symbol datum in
  let closingPrice := closingPriceOf datum in
  let initialPrices :=
    if decide (is_Some (initialPrices t !! symbol)) then initialPrices t
    else <[symbol := closingPrice]> (initialPrices t) in
  let assetValue :=
    getAssetValue closingPrice (Number.ofProperty (initialPrices !! symbol))
                  (Number.ofProperty (initialValues !! symbol)) in
  v ← defined "push" (valueData t !! symbol);
  mret {| valueData :=
            <[symbol := v ++ [{| dated_date := date; dated_value := assetValue |}]]>
              (valueData t);
          totalValue := addToTotal (totalValue t) date assetValue;
          initialPrices := initialPrices |}.

(** The loop over the data, from the empty containers. *)
Definition tallyData (portfolio : portfolio) (stockData : eodResponse)
  : completion tally :=
  d ← defined "forEach" (eod_data stockData);
  forEach (recordDatum (initialValuesOf portfolio)) d
    {| valueData := mapOfSymbols [] (stockSymbols portfolio);
       totalValue := [];
       initialPrices := ∅ |}.

End Loop.

Section Component.

(** The contents of [marketstack-eod-sample-data.json]. *)
Variable sampleData : eodResponse.

(** [const usingSampleData = true] *)
Definition usingSampleData : bool := true.

(** [getStockData]: the sample data, or else the body of the HTTP response. *)
Definition getStockData (response : eodResponse) (symbols : list string)
    (startDate : string) : eodResponse :=
  if usingSampleData then sampleData else response.

(** [updateChart] *)
Definition updateChart (portfolio : portfolio) (response : eodResponse)
    (c : component) : component * completion () :=
  let c := setIsLoading true c in
  let stockSymbols := stockSymbols portfolio in
  let stockData := getStockData response stockSymbols (startDate portfolio) in
  match tallyData adj_close portfolio stockData with
  | Throw e => (c, Throw e)
  | Normal t =>
      match seriesOf stockSymbols t with
      | Throw e => (c, Throw e)
      | Normal newChartSeries =>
          let c := setChartSeries (Some <$> newChartSeries) c in
          match defined "value" (last (totalValue t)) with
          | Throw e => (c, Throw e)
          | Normal latest =>
              let c := setFinalTotalValue (dated_value latest) c in
              match mapArray (finalValueOf t) stockSymbols with
              | Throw e => (c, Throw e)
              | Normal values =>
                  let c := setFinalStockValues values c in
                  let c := setChartLoaded true c in
                  (setIsLoading false c, Normal ())
              end
          end
      end
  end.

End Component.

(** The copy of the component in the page module [index.js]: it reads
    [datum.close], and keeps neither [isLoading] nor [finalStockValues]. *)
Module Page.

Section Component.

Variable sampleData : eodResponse.

(** [updateChart] *)
Definition updateChart (portfolio : portfolio) (response : eodResponse)
    (c : component) : component * completion () :=
  let stockSymbols := stockSymbols portfolio in
  let stockData :=
    getStockData sampleData response stockSymbols (startDate portfolio) in
  match tallyData datum_close portfolio stockData with
  | Throw e => (c, Throw e)
  | Normal t =>
      match seriesOf stockSymbols t with
      | Throw e => (c, Throw e)
      | Normal newChartSeries =>
          let c := setChartSeries (Some <$> newChartSeries) c in
          match defined "value" (last (totalValue t)) with
          | Throw e => (c, Throw e)
          | Normal latest =>
              let c := setFinalTotalValue (dated_value latest) c in
              (setChartLoaded true c, Normal ())
          end
      end
  end.

End Component.

(** [(chartLoaded && chartOptions && chartSeries) && <div>...</div>] *)
Definition chartRendered (c : component) : bool :=
  chartLoaded c && bool_decide (is_Some (chartSeries c)).

End Page.

(** *** What the data says *)

(** The records of a symbol, in the order of the data. *)
Definition recordsOf (d : list datum) (s : string) : list datum :=
  filter (λ r, datum_symbol r = s) d.

(** The amount invested in a symbol: that of the last asset that lists it. *)
Definition invested (portfolio : portfolio) (s : string) : option float :=
  (λ a, (portion a * initial portfolio)%float)
    <$> last (filter (λ a, symbol a = s) (assets portfolio)).

(** The worth of a record's holding: priced against the first record of its
    symbol. *)
Definition worth (closingPriceOf : datum → float) (portfolio : portfolio)
    (d : list datum) (r : datum) : float :=
  getAssetValue (closingPriceOf r)
    (Number.ofProperty (closingPriceOf <$> head (recordsOf d (datum_symbol r))))
    (Number.ofProperty (invested portfolio (datum_symbol r))).

(** The entries of [totalValue] the loop builds from [start] over the
    records [l], each record adding [worthOf] it. *)
Definition totalsFrom (worthOf : datum → float) (start : list dated) (l : list datum)
  : list dated :=
  foldl (λ totalValue r, addToTotal totalValue (datum_date r) (worthOf r)) start l.

(** A list without its adjacent repetitions. *)
Fixpoint squeeze (l : list string) : list string :=
  match l with
  | [] => []
  | a :: rest =>
      match rest with
      | [] => [a]
      | b :: _ => if decide (a = b) then squeeze rest else a :: squeeze rest
      end
  end.

(** The series of a symbol: a point per record of the symbol. *)
Definition symbolSeries (closingPriceOf : datum → float) (portfolio : portfolio)
    (d : list datum) (s : string) : series :=
  {| name := s; type := "area";
     data := (λ r, {| x := datum_date r;
                      y := Number.toFixed2 (worth closingPriceOf portfolio d r) |})
               <$> recordsOf d s |}.

(** The total series: a point per entry of the running total. *)
Definition totalSeries (closingPriceOf : datum → float) (portfolio : portfolio)
    (d : list datum) : series :=
  {| name := "Total Value"; type := "area";
     data := toPoint <$> totalsFrom (worth closingPriceOf portfolio d) [] d |}.

(** The final value of a symbol: the worth of its last record. *)
Definition finalStockValue (closingPriceOf : datum → float) (portfolio : portfolio)
    (d : list datum) (s : string) : stockValue :=
  {| sv_symbol := s;
     sv_value := worth closingPriceOf portfolio d <$> last (recordsOf d s) |}.

(** The sum the loop accumulates over a run of records, from 0. *)
Definition sumOf (worthOf : datum → float) (run : list datum) : float :=
  foldl (λ sum r, (sum + worthOf r)%float) 0%float run.

(** The records of the data are of the plan's symbols. *)
Definition known (portfolio : portfolio) (d : list datum) : Prop :=
  ∀ r, r ∈ d → datum_symbol r ∈ stockSymbols portfolio.

#[global] Instance known_dec (portfolio : portfolio) (d : list datum) :
  Decision (known portfolio d) :=
  match decide (Forall (λ r, datum_symbol r ∈ stockSymbols portfolio) d) with
  | left H => left (λ r Hr, proj1 (Forall_forall _ _) H r Hr)
  | right H => right (λ Hall, H (proj2 (Forall_forall _ _) Hall))
  end.

(** Every symbol of the plan has a record in the data. *)
Definition covered (portfolio : portfolio) (d : list datum) : Prop :=
  ∀ s, s ∈ stockSymbols portfolio → recordsOf d s ≠ [].

#[global] Instance covered_dec (portfolio : portfolio) (d : list datum) :
  Decision (covered portfolio d) :=
  match decide (Forall (λ s, recordsOf d s ≠ []) (stockSymbols portfolio)) with
  | left H => left (λ s Hs, proj1 (Forall_forall _ _) H s Hs)
  | right H => right (λ Hall, H (proj2 (Forall_forall _ _) Hall))
  end.

(** What the containers hold after the records [pre]. *)
Definition tallied (closingPriceOf : datum → float) (portfolio : portfolio)
    (pre : list datum) (t : tally) : Prop :=
  (∀ s, valueData t !! s =
          if decide (s ∈ stockSymbols portfolio)
          then Some ((λ r, {| dated_date := datum_date r;
                              dated_value := worth closingPriceOf portfolio pre r |})
                       <$> recordsOf pre s)
          else None)
  ∧ totalValue t = totalsFrom (worth closingPriceOf portfolio pre) [] pre
  ∧ (∀ s, initialPrices t !! s = closingPriceOf <$> head (recordsOf pre s)).

(** The data completes a run of [updateChart]: it is there, it is not
    empty, its records are of the plan's symbols and every symbol of the
    plan has a record. *)
Definition chartable (portfolio : portfolio) (stockData : eodResponse) : Prop :=
  ∃ d, eod_data stockData = Some d
       ∧ d ≠ []
       ∧ known portfolio d
       ∧ covered portfolio d.

(** A checkable form of [chartable]. *)
Definition chartableb (portfolio : portfolio) (stockData : eodResponse) : bool :=
  match eod_data stockData with
  | Some (r0 :: d0) =>
      forallb (λ r, bool_decide (datum_symbol r ∈ stockSymbols portfolio)) (r0 :: d0)
      && forallb (λ s, existsb (λ r, bool_decide (datum_symbol r = s)) (r0 :: d0))
                 (stockSymbols portfolio)
  | _ => false
  end.

End Marketstack.

(** ** More scenarios *)

Module Scenario2.

(** X listed twice in the plan. *)
Definition planTwice : portfolio :=
  {| initial := 1000%float; startDate := "2023-01-01T00:00:00.000Z";
     assets := [Scenario.holding "X" 0.25%float; Scenario.holding "X" 0.75%float] |}.

(** A plan whose only symbol is named Total. *)
Definition planTotal : portfolio :=
  {| initial := 1000%float; startDate := "2023-01-01T00:00:00.000Z";
     assets := [Scenario.holding "Total" 1%float] |}.

Definition dataTotal : gmap string payload :=
  {[ "Total" := Scenario.ok [Scenario.day Scenario.d2 150%float;
                            Scenario.day Scenario.d1 100%float] ]}.

(** X with two records on the second date. *)
Definition dataRepeated : gmap string payload :=
  {[ "X" := Scenario.ok [Scenario.day Scenario.d2 150%float;
                        Scenario.day Scenario.d2 120%float;
                        Scenario.day Scenario.d1 100%float] ]}.

(** X with an empty array of values beside a retrieved Y. *)
Definition dataEmptyX : gmap string payload :=
  {[ "X" := Scenario.ok [];
     "Y" := Scenario.ok [Scenario.day Scenario.d1 50%float] ]}.

(** One day under two spellings of the same instant, midnight UTC. *)
Definition dSame : string := "2023-01-01T00:00:00.000Z".

Definition dataSameInstant : gmap string payload :=
  {[ "X" := Scenario.ok [Scenario.day dSame 150%float;
                        Scenario.day Scenario.d1 100%float] ]}.

(** A symbol named Total, quoted on the first date only, beside Y. *)
Definition planTotalY : portfolio :=
  {| initial := 200%float; startDate := "2023-01-01T00:00:00.000Z";
     assets := [Scenario.holding "Total" 0.5%float; Scenario.holding "Y" 0.5%float] |}.

Definition dataTotalY : gmap string payload :=
  {[ "Total" := Scenario.ok [Scenario.day Scenario.d1 100%float];
     "Y" := Scenario.ok [Scenario.day Scenario.d2 60%float;
                        Scenario.day Scenario.d1 50%float] ]}.

(** A plan of 10^21, invested in X at a price of 1. *)
Definition planHuge : portfolio :=
  {| initial := 1e21%float; startDate := "2023-01-01T00:00:00.000Z";
     assets := [Scenario.holding "X" 1%float] |}.

Definition dataHuge : gmap string payload :=
  {[ "X" := Scenario.ok [Scenario.day Scenario.d1 1%float] ]}.

(** A component that shows an earlier error. *)
Definition failedBefore : component :=
  setErrMsg "Sorry, but something went wrong." mounted.

(** 20 March 2013, as [Date] reads it in UTC. *)
Definition march20 : utcDate :=
  {| getUTCFullYear := 2013; getUTCMonth := 2; getUTCDate := 20 |}.

Definition eod (d s : string) (c : float) : Marketstack.datum :=
  {| Marketstack.datum_date := d; Marketstack.datum_symbol := s;
     Marketstack.datum_close := c; Marketstack.adj_close := c |}.

(** Marketstack data for X and Y in ascending date order. *)
Definition eodXY : Marketstack.eodResponse :=
  {| Marketstack.eod_data :=
       Some [eod Scenario.d1 "X" 100%float; eod Scenario.d1 "Y" 50%float;
             eod Scenario.d2 "X" 200%float; eod Scenario.d2 "Y" 50%float] |}.

(** The same with a record of a symbol the plan does not hold. *)
Definition eodStranger : Marketstack.eodResponse :=
  {| Marketstack.eod_data :=
       Some [eod Scenario.d1 "X" 100%float; eod Scenario.d1 "Z" 50%float] |}.

(** A response whose data array is empty. *)
Definition eodEmpty : Marketstack.eodResponse :=
  {| Marketstack.eod_data := Some [] |}.

(** Data in which Y has no record on the last date. *)
Definition eodLate : Marketstack.eodResponse :=
  {| Marketstack.eod_data :=
       Some [eod Scenario.d1 "X" 100%float; eod Scenario.d1 "Y" 50%float;
             eod Scenario.d2 "X" 200%float] |}.

(** Data without a record of Y. *)
Definition eodOnlyX : Marketstack.eodResponse :=
  {| Marketstack.eod_data :=
       Some [eod Scenario.d1 "X" 100%float; eod Scenario.d2 "X" 200%float] |}.

End Scenario2.

(** * Properties *)

#[local] Set Warnings "-clear-no-such-hyp".

(** Closed goals about concrete data are settled by evaluation. *)
Ltac evaluated := vm_compute; reflexivity.
Ltac decided := apply (bool_decide_unpack _); vm_compute; exact I.

(** ** Numbers *)

Lemma SFmul_comm prec emax (a b : spec_float) :
  SFmul prec emax a b = SFmul prec emax b a.
Proof.
  destruct a as [sa|sa| |sa ma ea], b as [sb|sb| |sb mb eb]; simpl;
    rewrite ?(xorb_comm sa sb); try reflexivity.
  by rewrite (Pos.mul_comm ma mb), (Z.add_comm ea eb).
Qed.

(** Multiplication of binary64 numbers is commutative. *)
Lemma float_mul_comm (a b : float) : (a * b)%float = (b * a)%float.
Proof.
  apply Prim2SF_inj. rewrite !mul_spec. apply SFmul_comm.
Qed.

(** ** Loops *)

Lemma forEach_app {A S} (f : S → A → completion S) (l1 l2 : list A) (s : S) :
  forEach f (l1 ++ l2) s = s' ← forEach f l1 s; forEach f l2 s'.
Proof.
  revert s. induction l1 as [|a l1 IH]; intros s; simpl; [done|].
  destruct (f s a) as [s'|e]; simpl; [apply IH | done].
Qed.

(** The loop rule: an invariant indexed by the elements already visited. *)
Lemma forEach_invariant {A S} (f : S → A → completion S)
    (I : list A → S → Prop) (l : list A) (s0 : S) :
  I [] s0 →
  (∀ pre a post s, l = pre ++ a :: post → I pre s →
     ∃ s', f s a = Normal s' ∧ I (pre ++ [a]) s') →
  ∃ s', forEach f l s0 = Normal s' ∧ I l s'.
Proof.
  intros Hinit Hstep.
  assert (∀ post pre s, l = pre ++ post → I pre s →
            ∃ s', forEach f post s = Normal s' ∧ I l s') as Hgen.
  { induction post as [|a post IH]; intros pre s Hl HI; simpl.
    - exists s. split; [done|]. by rewrite Hl, app_nil_r.
    - destruct (Hstep pre a post s Hl HI) as (s' & Hf & HI').
      rewrite Hf. simpl. apply (IH (pre ++ [a])); [|done].
      by rewrite <- app_assoc. }
  by apply (Hgen l []).
Qed.

(** ** The input *)

Lemma retrieved_daysOf stockData symbols s :
  retrieved stockData symbols → s ∈ symbols →
  ∃ entry, stockData !! s = Some entry ∧ values entry = Some (daysOf stockData s)
           ∧ daysOf stockData s ≠ [].
Proof.
  intros Hr Hs. destruct (Hr s Hs) as (entry & days & He & Hv & Hne).
  exists entry. unfold daysOf. rewrite He. simpl. by rewrite Hv.
Qed.

Lemma last_filter_snoc {A} (P : A → Prop) `{∀ a, Decision (P a)} (l : list A) (a : A) :
  last (filter P (l ++ [a])) = if decide (P a) then Some a else last (filter P l).
Proof.
  rewrite filter_app, filter_cons, filter_nil.
  destruct (decide (P a)); [apply last_snoc | by rewrite app_nil_r].
Qed.

Lemma elem_of_snoc {A} (l : list A) (a : A) : a ∈ l ++ [a].
Proof. apply elem_of_app. right. by apply list_elem_of_singleton. Qed.

Lemma elem_of_snoc_ne {A} (l : list A) (a b : A) :
  b ≠ a → b ∈ l ++ [a] ↔ b ∈ l.
Proof.
  intros Hne. rewrite elem_of_app, list_elem_of_singleton. naive_solver.
Qed.

Lemma elem_of_middle {A} (l1 l2 : list A) (a : A) : a ∈ l1 ++ a :: l2.
Proof. apply elem_of_app. right. by left. Qed.

Lemma filter_none {A} (P : A → Prop) `{∀ a, Decision (P a)} (l : list A) :
  (∀ a, a ∈ l → ¬ P a) → filter P l = [].
Proof.
  induction l as [|b l IH]; intros Hl; [done|].
  rewrite filter_cons, decide_False by (apply Hl; by left).
  apply IH. intros a Ha. apply Hl. by right.
Qed.

Lemma lastKnown_snoc valueOf dates d :
  lastKnown valueOf (dates ++ [d]) = default (lastKnown valueOf dates) (valueOf d).
Proof. unfold lastKnown. by rewrite foldl_app. Qed.

(** ** Maps built from the symbol list *)

Lemma mapOfSymbols_lookup {V} (v : V) (symbols : list string) (s : string) :
  mapOfSymbols v symbols !! s = if decide (s ∈ symbols) then Some v else None.
Proof.
  unfold mapOfSymbols.
  induction symbols as [|a l IH] using rev_ind; simpl.
  - done.
  - rewrite foldl_app. simpl. destruct (decide (a = s)) as [->|Hne].
    + rewrite lookup_insert_eq. rewrite decide_True; [done | apply elem_of_snoc].
    + rewrite lookup_insert_ne by done. rewrite IH.
      apply decide_ext. symmetry. by apply elem_of_snoc_ne.
Qed.

Lemma emptySeries_lookup (names : list string) (n : string) :
  emptySeries names !! n =
    if decide (n ∈ names) then Some {| name := n; type := "area"; data := [] |}
    else None.
Proof.
  unfold emptySeries.
  induction names as [|a l IH] using rev_ind; simpl.
  - done.
  - rewrite foldl_app. simpl. destruct (decide (a = n)) as [->|Hne].
    + rewrite lookup_insert_eq. rewrite decide_True; [done | apply elem_of_snoc].
    + rewrite lookup_insert_ne by done. rewrite IH.
      apply decide_ext. symmetry. by apply elem_of_snoc_ne.
Qed.

(** ** The set of dates *)

Lemma setAdd_elem_of (a d : string) (dates : list string) :
  d ∈ setAdd a dates ↔ d ∈ dates ∨ d = a.
Proof. unfold setAdd. case_decide; set_solver. Qed.

Lemma setAdd_NoDup (a : string) (dates : list string) :
  NoDup dates → NoDup (setAdd a dates).
Proof.
  intros Hnd. unfold setAdd. case_decide as Hin; [done|].
  apply NoDup_app. split_and!; [done | | apply NoDup_singleton].
  intros d Hd Hd'. apply list_elem_of_singleton in Hd'. by subst.
Qed.

(** ** Sorting the dates *)

Section Sorting.

Variable timeValue : string → Z.

Lemma insertDate_Permutation a l : insertDate timeValue a l ≡ₚ a :: l.
Proof.
  induction l as [|b l IH]; simpl; [done|].
  destruct (timeValue a <=? timeValue b); [done|].
  rewrite IH. apply Permutation_swap.
Qed.

Lemma sortDates_Permutation l : sortDates timeValue l ≡ₚ l.
Proof.
  induction l as [|a l IH]; simpl; [done|].
  rewrite insertDate_Permutation. by rewrite IH.
Qed.

Lemma insertDate_sorted a l :
  StronglySorted (notAfter timeValue) l →
  StronglySorted (notAfter timeValue) (insertDate timeValue a l).
Proof.
  induction l as [|b l IH]; intros Hs; simpl.
  - repeat constructor.
  - apply StronglySorted_inv in Hs as [Hs Hb].
    destruct (timeValue a <=? timeValue b) eqn:Hab.
    + apply Z.leb_le in Hab. constructor; [by constructor|].
      constructor; [done|].
      eapply Forall_impl; [exact Hb|]. unfold notAfter. intros; lia.
    + apply Z.leb_gt in Hab. constructor; [by apply IH|].
      rewrite insertDate_Permutation. constructor; [|done].
      unfold notAfter. lia.
Qed.

Lemma sortDates_sorted l : StronglySorted (notAfter timeValue) (sortDates timeValue l).
Proof.
  induction l as [|a l IH]; simpl; [constructor | by apply insertDate_sorted].
Qed.

Lemma sortDates_elem_of l d : d ∈ sortDates timeValue l ↔ d ∈ l.
Proof. by rewrite sortDates_Permutation. Qed.

Lemma sortDates_NoDup l : NoDup l → NoDup (sortDates timeValue l).
Proof. by rewrite sortDates_Permutation. Qed.

(** Where distinct dates have distinct time values, ascending and
    duplicate-free is strictly ascending. *)
Lemma sorted_strictly l :
  (∀ a b, a ∈ l → b ∈ l → timeValue a = timeValue b → a = b) →
  NoDup l → StronglySorted (notAfter timeValue) l →
  StronglySorted (before timeValue) l.
Proof.
  induction l as [|a l IH]; intros Hinj Hnd Hs; [constructor|].
  apply NoDup_cons in Hnd as [Ha Hnd].
  apply StronglySorted_inv in Hs as [Hs Hall].
  constructor.
  - apply IH; [|done|done]. intros b c Hb Hc. apply Hinj; set_solver.
  - rewrite Forall_forall in Hall |- *. intros b Hb.
    specialize (Hall b Hb). unfold notAfter in Hall. unfold before.
    destruct (decide (timeValue a = timeValue b)) as [Heq|Hne]; [|lia].
    apply Hinj in Heq; [|set_solver..]. subst. done.
Qed.

End Sorting.

(** ** The shape of [toFixed2] *)

Example toFixed2_examples :
  map Number.toFixed2
      [1000; 2.5; 0.125; -1.5; 0; 1e21; 0x1p70; PrimFloat.infinity; PrimFloat.nan]%float
  = ["1000.00"; "2.50"; "0.13"; "-1.50"; "0.00"; "1e+21";
     "1.1805916207174113e+21"; "Infinity"; "NaN"].
Proof. evaluated. Qed.

Lemma decimal_digit (j : Z) :
  0 ≤ j ≤ 9 →
  ∃ c, Number.decimal j = String c EmptyString ∧ Number.digitValue c = Some j.
Proof.
  intros Hj.
  assert (j = 0 ∨ j = 1 ∨ j = 2 ∨ j = 3 ∨ j = 4 ∨ j = 5 ∨ j = 6 ∨ j = 7
          ∨ j = 8 ∨ j = 9) as Hcases by lia.
  repeat (destruct Hcases as [->|Hcases]); [..|subst j];
    eexists; split; reflexivity.
Qed.

(** A finite value below [10^21] in magnitude prints with exactly two
    fraction digits after the point. *)
Lemma toFixed2_two_decimals (v : float) (s : bool) (m : positive) (e : Z) :
  Prim2SF v = S754_finite s m e →
  Z.pos m * 2 ^ e < 10 ^ 21 →
  ∃ tenths hundredths,
    Number.toFixed2 v =
      (if s then "-" else "")
        +:+ Number.decimal (Number.hundredths m e / 100)
        +:+ "." +:+ String tenths (String hundredths EmptyString)
    ∧ Number.digitValue tenths = Some (Number.hundredths m e mod 100 / 10)
    ∧ Number.digitValue hundredths = Some (Number.hundredths m e mod 10).
Proof.
  intros Hv Hsmall. unfold Number.toFixed2. rewrite Hv.
  destruct (10 ^ 21 <=? Z.pos m * 2 ^ e) eqn:Hbig; [apply Z.leb_le in Hbig; lia|].
  set (n := Number.hundredths m e).
  assert (0 ≤ n mod 100 < 100) as Hr by (apply Z.mod_pos_bound; lia).
  destruct (decimal_digit (n mod 100 / 10)) as (c1 & Hc1 & Hd1).
  { split; [apply Z.div_pos; lia|]. apply Z.lt_succ_r, Z.div_lt_upper_bound; lia. }
  destruct (decimal_digit ((n mod 100) mod 10)) as (c2 & Hc2 & Hd2).
  { pose proof (Z.mod_pos_bound (n mod 100) 10). lia. }
  exists c1, c2. unfold Number.twoDigits. rewrite Hc1, Hc2. split_and!.
  - reflexivity.
  - done.
  - rewrite Hd2. f_equal.
    apply Z.mod_mod_divide. by exists 10.
Qed.

Lemma decimal_digitChar (j : Z) :
  0 ≤ j ≤ 9 → Number.decimal j = String (digitChar j) EmptyString.
Proof.
  intros Hj.
  assert (j = 0 ∨ j = 1 ∨ j = 2 ∨ j = 3 ∨ j = 4 ∨ j = 5 ∨ j = 6 ∨ j = 7
          ∨ j = 8 ∨ j = 9) as Hcases by lia.
  repeat (destruct Hcases as [->|Hcases]); [..|subst j]; reflexivity.
Qed.

Lemma hundredths_nearest (m : positive) (e : Z) :
  nearestHundredth m e (Number.hundredths m e).
Proof.
  unfold nearestHundredth, Number.hundredths. cbv zeta.
  destruct (0 <=? e) eqn:He.
  - apply Z.leb_le in He.
    rewrite (Z.max_r 0 e), (Z.max_l 0 (- e)) by lia.
    change (2 ^ 0) with 1. lia.
  - apply Z.leb_gt in He.
    rewrite (Z.max_l 0 e), (Z.max_r 0 (- e)) by lia.
    change (2 ^ 0) with 1.
    replace (1 - e) with (Z.succ (- e)) by lia.
    rewrite Z.pow_succ_r by lia.
    set (D := 2 ^ (- e)).
    assert (0 < D) as HD by (apply Z.pow_pos_nonneg; lia).
    pose proof (Z.mul_div_le (200 * Z.pos m + D) (2 * D) ltac:(lia)) as Hle.
    pose proof (Z.mul_succ_div_gt (200 * Z.pos m + D) (2 * D) ltac:(lia)) as Hgt.
    lia.
Qed.

(** A finite value below [10^21] in magnitude prints as its nearest
    hundredth, with exactly two decimals. *)
Lemma toFixed2_twoDecimals (v : float) :
  displayable v → twoDecimals v (Number.toFixed2 v).
Proof.
  unfold displayable, twoDecimals, Number.toFixed2.
  destruct (Prim2SF v) as [z|i| |s m e]; [done|done|done|].
  intros Hsmall.
  destruct (10 ^ 21 <=? Z.pos m * 2 ^ e) eqn:Hbig.
  { apply Z.leb_le in Hbig. exfalso.
    destruct (Z.le_gt_cases 0 e) as [He|He].
    - rewrite Z.max_r in Hsmall by lia. lia.
    - rewrite (Z.pow_neg_r 2 e) in Hbig by lia.
      pose proof (Z.pow_pos_nonneg 10 21). lia. }
  exists (Number.hundredths m e). split; [apply hundredths_nearest|].
  unfold inHundredths, Number.twoDigits.
  set (n := Number.hundredths m e).
  assert (0 ≤ n mod 100 < 100) as Hr by (apply Z.mod_pos_bound; lia).
  rewrite (decimal_digitChar (n mod 100 / 10)).
  - rewrite (decimal_digitChar (n mod 100 mod 10)).
    + replace (n mod 100 mod 10) with (n mod 10); [done|].
      symmetry. apply Z.mod_mod_divide. by exists 10.
    + pose proof (Z.mod_pos_bound (n mod 100) 10). lia.
  - split; [apply Z.div_pos; lia|].
    apply Z.lt_succ_r, Z.div_lt_upper_bound; lia.
Qed.

(** ** The shares bought *)

Lemma sharesBought_spec portfolio stockData :
  retrieved stockData (stockSymbols portfolio) →
  ∃ shares, sharesBought portfolio stockData = Normal shares
    ∧ ∀ s, shares !! s =
        purchase portfolio stockData
          <$> last (filter (λ a, symbol a = s) (assets portfolio)).
Proof.
  intros Hr. unfold sharesBought.
  apply (forEach_invariant _
    (λ pre shares, ∀ s, shares !! s =
       purchase portfolio stockData <$> last (filter (λ a, symbol a = s) pre))).
  { intros s. by rewrite lookup_empty. }
  intros pre a post shares Hl Hinv.
  assert (symbol a ∈ stockSymbols portfolio) as Ha.
  { unfold stockSymbols. rewrite Hl. apply list_elem_of_fmap.
    exists a. split; [done|]. apply elem_of_middle. }
  destruct (retrieved_daysOf _ _ _ Hr Ha) as (entry & He & Hv & Hne).
  destruct (last (daysOf stockData (symbol a))) as [q|] eqn:Hlast;
    [|by apply last_None in Hlast].
  eexists. split.
  { unfold buyShares. rewrite He. simpl. rewrite Hv. simpl. rewrite Hlast.
    simpl. reflexivity. }
  intros s. rewrite last_filter_snoc. destruct (decide (symbol a = s)) as [<-|Hne'].
  - rewrite lookup_insert_eq. simpl. unfold purchase. by rewrite Hlast.
  - rewrite lookup_insert_ne by done. apply Hinv.
Qed.

Lemma last_filter_unique {A} (P : A → Prop) `{∀ a, Decision (P a)}
    (f : A → string) (l : list A) (a : A) :
  NoDup (f <$> l) → a ∈ l → P a → (∀ b, P b → f b = f a) →
  last (filter P l) = Some a.
Proof.
  intros Hnd Ha HP Hf.
  assert (filter P l = [a]) as ->; [|done].
  induction l as [|b l IH]; [by apply elem_of_nil in Ha|].
  rewrite fmap_cons in Hnd. apply NoDup_cons in Hnd as [Hb Hnd].
  rewrite filter_cons. apply elem_of_cons in Ha as [<-|Ha].
  - rewrite decide_True by done. f_equal.
    apply filter_none. intros c Hc HPc.
    apply Hb. apply list_elem_of_fmap. exists c. split; [|done].
    symmetry. auto.
  - rewrite decide_False; [by apply IH|].
    intros HPb. apply Hb. apply list_elem_of_fmap. exists a. split; [|done].
    rewrite <- (Hf b HPb). done.
Qed.

(** With unique symbols, each asset's own purchase is the symbol's share
    count. *)
Lemma sharesBought_asset portfolio stockData a :
  retrieved stockData (stockSymbols portfolio) →
  NoDup (stockSymbols portfolio) → a ∈ assets portfolio →
  ∃ shares, sharesBought portfolio stockData = Normal shares
    ∧ shares !! symbol a = Some (purchase portfolio stockData a).
Proof.
  intros Hr Hnd Ha. destruct (sharesBought_spec _ _ Hr) as (shares & Hs & Hl).
  exists shares. split; [done|]. rewrite Hl.
  rewrite (last_filter_unique _ symbol _ a); [done|done|done|done|].
  by intros b ->.
Qed.

(** ** The recorded values and dates *)

(** One symbol's trading days: its map takes the value of the last quote of
    each date; other symbols' maps stay; the dates join the set. *)
Lemma recordDays_spec shares s days byDate0 stockValuesByDate dates :
  stockValuesByDate !! s = Some byDate0 →
  ∃ stockValuesByDate' dates' byDate,
    forEach (recordTradingDay shares s) days (stockValuesByDate, dates)
      = Normal (stockValuesByDate', dates')
    ∧ stockValuesByDate' !! s = Some byDate
    ∧ (∀ d, byDate !! d =
         match last (filter (λ q, datetime q = d) days) with
         | Some q => Some (Number.ofProperty (shares !! s) * close q)%float
         | None => byDate0 !! d
         end)
    ∧ (∀ s', s' ≠ s → stockValuesByDate' !! s' = stockValuesByDate !! s')
    ∧ (NoDup dates → NoDup dates')
    ∧ (∀ d, d ∈ dates' ↔ d ∈ dates ∨ d ∈ datetime <$> days).
Proof.
  intros H0.
  destruct (forEach_invariant (recordTradingDay shares s)
    (λ pre st, ∃ byDate,
       st.1 !! s = Some byDate
       ∧ (∀ d, byDate !! d =
            match last (filter (λ q, datetime q = d) pre) with
            | Some q => Some (Number.ofProperty (shares !! s) * close q)%float
            | None => byDate0 !! d
            end)
       ∧ (∀ s', s' ≠ s → st.1 !! s' = stockValuesByDate !! s')
       ∧ (NoDup dates → NoDup st.2)
       ∧ (∀ d, d ∈ st.2 ↔ d ∈ dates ∨ d ∈ datetime <$> pre))
    days (stockValuesByDate, dates)) as ([svbd' dates'] & Hrun & byDate & Hinv).
  - exists byDate0. simpl. split_and!; try done.
    intros d. set_solver.
  - intros pre q post [svbd ds] _ (byDate & Hs & Hlook & Hother & Hnd & Hin).
    simpl in *. eexists. split.
    { unfold recordTradingDay. rewrite Hs. simpl. reflexivity. }
    simpl. eexists. split; [apply lookup_insert_eq|].
    split_and!.
    + intros d. rewrite last_filter_snoc.
      destruct (decide (datetime q = d)) as [<-|Hne].
      * by rewrite lookup_insert_eq.
      * rewrite lookup_insert_ne by done. apply Hlook.
    + intros s' Hne. rewrite lookup_insert_ne by done. by apply Hother.
    + intros Hd. apply setAdd_NoDup. by apply Hnd.
    + intros d. rewrite setAdd_elem_of, Hin, fmap_app, elem_of_app. simpl.
      rewrite list_elem_of_singleton. naive_solver.
  - exists svbd', dates', byDate. simpl in Hinv. by split.
Qed.

Lemma unionDates_snoc stockData symbols s :
  unionDates stockData (symbols ++ [s]) =
    unionDates stockData symbols ++ (datetime <$> daysOf stockData s).
Proof. unfold unionDates. rewrite bind_app. simpl. by rewrite app_nil_r. Qed.

Lemma recordValues_spec symbols stockData shares :
  retrieved stockData symbols →
  ∃ stockValuesByDate allDates,
    recordValues symbols stockData shares = Normal (stockValuesByDate, allDates)
    ∧ (∀ s, s ∈ symbols →
         ∃ byDate, stockValuesByDate !! s = Some byDate
                   ∧ ∀ d, byDate !! d = valueOn shares stockData s d)
    ∧ NoDup allDates
    ∧ (∀ d, d ∈ allDates ↔ d ∈ unionDates stockData symbols).
Proof.
  intros Hr. unfold recordValues.
  destruct (forEach_invariant (recordSymbol stockData shares)
    (λ pre st,
       (∀ s, s ∈ symbols →
          ∃ byDate, st.1 !! s = Some byDate
            ∧ ∀ d, byDate !! d =
                if decide (s ∈ pre) then valueOn shares stockData s d else None)
       ∧ NoDup st.2
       ∧ (∀ d, d ∈ st.2 ↔ d ∈ unionDates stockData pre))
    symbols (mapOfSymbols ∅ symbols, [])) as ([svbd dates] & Hrun & Hv & Hnd & Hin).
  - simpl. split_and!.
    + intros s Hs. exists ∅. rewrite mapOfSymbols_lookup, decide_True by done.
      split; [done|]. intros d. by rewrite lookup_empty.
    + apply NoDup_nil_2.
    + done.
  - intros pre a post [svbd ds] Hl (Hv & Hnd & Hin). simpl in *.
    assert (a ∈ symbols) as Ha by (rewrite Hl; apply elem_of_middle).
    destruct (retrieved_daysOf _ _ _ Hr Ha) as (entry & He & Hvals & _).
    destruct (Hv a Ha) as (byDate0 & H0 & Hlook0).
    destruct (recordDays_spec shares a (daysOf stockData a) byDate0 svbd ds H0)
      as (svbd' & ds' & byDate & Hrun & Hs & Hlook & Hother & Hnd' & Hin').
    exists (svbd', ds'). split.
    { unfold recordSymbol. rewrite He. simpl. rewrite Hvals. simpl. exact Hrun. }
    simpl. split_and!.
    + intros s Hs'. destruct (decide (s = a)) as [->|Hne].
      * exists byDate. split; [done|]. intros d. rewrite Hlook, Hlook0.
        rewrite (decide_True (P := a ∈ pre ++ [a])) by apply elem_of_snoc.
        unfold valueOn, quoteOn.
        destruct (last (filter (λ q, datetime q = d) (daysOf stockData a)));
          simpl; [done|]. by case_decide.
      * destruct (Hv s Hs') as (m & Hm & Hlm). exists m.
        rewrite Hother by done. split; [done|]. intros d. rewrite Hlm.
        apply decide_ext. symmetry. by apply elem_of_snoc_ne.
    + by apply Hnd'.
    + intros d. rewrite Hin', Hin, unionDates_snoc, elem_of_app. done.
  - exists svbd, dates. simpl in *. split_and!; try done.
    intros s Hs. destruct (Hv s Hs) as (m & Hm & Hlm). exists m. split; [done|].
    intros d. rewrite Hlm. by rewrite decide_True.
Qed.

(** ** The walk over the dates *)

Lemma foldl_ext_in {A B} (f g : A → B → A) (l : list B) (a : A) :
  (∀ a b, b ∈ l → f a b = g a b) → foldl f a l = foldl g a l.
Proof.
  revert a. induction l as [|b l IH]; intros a H; simpl; [done|].
  rewrite H by (by left). apply IH. intros a' b' Hb'. apply H. by right.
Qed.

Lemma pushPoint_spec n pt newChartSeries sr :
  newChartSeries !! n = Some sr →
  pushPoint n pt newChartSeries =
    Normal (<[n := {| name := name sr; type := type sr; data := data sr ++ [pt] |}]>
              newChartSeries).
Proof. intros H. unfold pushPoint. by rewrite H. Qed.

Section Walk.

Variable valueOf : string → string → option float.
Variable symbols : list string.
Variable stockValuesByDate : gmap string (gmap string float).

Hypothesis recorded :
  ∀ s, s ∈ symbols →
    ∃ byDate, stockValuesByDate !! s = Some byDate ∧ ∀ d, byDate !! d = valueOf s d.

Lemma symbolPoints_snoc (ps : list string) (a n d : string) :
  symbolPoints valueOf (ps ++ [a]) n d =
    symbolPoints valueOf ps n d ++
      (if decide (a = n)
       then match valueOf a d with
            | Some v => [{| x := d; y := Number.toFixed2 v |}]
            | None => []
            end
       else []).
Proof. unfold symbolPoints. rewrite bind_app. simpl. by rewrite app_nil_r. Qed.

Lemma emittedFrom_snoc (n : string) (visited dates : list string) (d : string) :
  emittedFrom valueOf symbols n visited (dates ++ [d]) =
    emittedFrom valueOf symbols n visited dates
      ++ symbolPoints valueOf symbols n d
      ++ totalPoints valueOf symbols n (visited ++ dates ++ [d]) d.
Proof.
  revert visited. induction dates as [|d' dates IH]; intros visited; simpl.
  - by rewrite !app_nil_r.
  - rewrite IH. rewrite <- !app_assoc. simpl. done.
Qed.

Lemma sumValues_totalOf (currentValues : gmap string float) (upto : list string) :
  (∀ s, s ∈ symbols → currentValues !! s = Some (lastKnown (valueOf s) upto)) →
  sumValues currentValues symbols = totalOf valueOf symbols upto.
Proof.
  intros H. unfold sumValues, totalOf. apply foldl_ext_in.
  intros a s Hs. by rewrite H.
Qed.

(** The first inner loop on a date [d]. *)
Lemma visitSymbols_spec (d : string) (cv0 : gmap string float)
    (ncs0 : gmap string series) :
  (∀ s, s ∈ symbols → is_Some (ncs0 !! s)) →
  ∃ cv ncs,
    forEach (visitSymbol stockValuesByDate d) symbols (cv0, ncs0) = Normal (cv, ncs)
    ∧ (∀ s, s ∈ symbols → cv !! s =
         match valueOf s d with Some v => Some v | None => cv0 !! s end)
    ∧ (∀ n, ncs !! n =
         (λ sr, {| name := name sr; type := type sr;
                   data := data sr ++ symbolPoints valueOf symbols n d |})
           <$> ncs0 !! n).
Proof.
  intros Hsome.
  destruct (forEach_invariant (visitSymbol stockValuesByDate d)
    (λ ps st,
       (∀ s, st.1 !! s =
          match (if decide (s ∈ ps) then valueOf s d else None) with
          | Some v => Some v
          | None => cv0 !! s
          end)
       ∧ (∀ n, st.2 !! n =
            (λ sr, {| name := name sr; type := type sr;
                      data := data sr ++ symbolPoints valueOf ps n d |})
              <$> ncs0 !! n))
    symbols (cv0, ncs0)) as ([cv ncs] & Hrun & Hcv & Hncs).
  - simpl. split; [done|]. intros n. destruct (ncs0 !! n) as [[? ? ?]|]; simpl; [|done].
    by rewrite app_nil_r.
  - intros ps a post [cv ncs] Hl [Hcv Hncs]. simpl in *.
    assert (a ∈ symbols) as Ha by (rewrite Hl; apply elem_of_middle).
    destruct (recorded a Ha) as (byDate & Hby & Hval).
    destruct (Hsome a Ha) as [sr0 Hsr0].
    unfold visitSymbol. rewrite Hby. simpl. rewrite Hval.
    destruct (valueOf a d) as [v|] eqn:Hv.
    + erewrite pushPoint_spec by (rewrite Hncs, Hsr0; reflexivity).
      simpl. eexists. split; [reflexivity|]. simpl. split.
      * intros s. destruct (decide (s = a)) as [->|Hne].
        -- rewrite lookup_insert_eq, decide_True by apply elem_of_snoc. by rewrite Hv.
        -- rewrite lookup_insert_ne by done. rewrite Hcv.
           rewrite (decide_ext (s ∈ ps ++ [a]) (s ∈ ps)); [done|].
           by apply elem_of_snoc_ne.
      * intros n. rewrite symbolPoints_snoc. destruct (decide (a = n)) as [<-|Hne].
        -- rewrite lookup_insert_eq, Hsr0, Hv. simpl. by rewrite <- app_assoc.
        -- rewrite lookup_insert_ne by done. rewrite Hncs.
           destruct (ncs0 !! n); simpl; [|done]. by rewrite app_nil_r.
    + simpl. eexists. split; [reflexivity|]. simpl. split.
      * intros s. rewrite Hcv. destruct (decide (s = a)) as [->|Hne].
        -- rewrite Hv. by destruct (decide (a ∈ ps)), (decide (a ∈ ps ++ [a])).
        -- rewrite (decide_ext (s ∈ ps ++ [a]) (s ∈ ps)); [done|].
           by apply elem_of_snoc_ne.
      * intros n. rewrite Hncs, symbolPoints_snoc, Hv.
        destruct (ncs0 !! n); simpl; [|done].
        destruct (decide (a = n)); by rewrite app_nil_r.
  - exists cv, ncs. simpl in *. split_and!; [done| |done].
    intros s Hs. rewrite Hcv. by rewrite decide_True.
Qed.

(** One date of the walk. *)
Lemma visitDate_spec (visited : list string) (d : string) (w : walk) :
  walked valueOf symbols visited w →
  ∃ w', visitDate stockValuesByDate symbols w d = Normal w'
        ∧ walked valueOf symbols (visited ++ [d]) w'.
Proof.
  intros (Hcv & Hncs & Hpv).
  destruct (visitSymbols_spec d (currentValues w) (newChartSeries w))
    as (cv & ncs & Hrun & Hcv' & Hncs').
  { intros s Hs. rewrite Hncs; [done|]. unfold seriesNames.
    apply elem_of_app. by left. }
  assert (∀ s, s ∈ symbols → cv !! s = Some (lastKnown (valueOf s) (visited ++ [d])))
    as Hcur.
  { intros s Hs. rewrite Hcv', Hcv, lastKnown_snoc by done.
    by destruct (valueOf s d). }
  assert ("Total" ∈ seriesNames symbols) as Htotal by apply elem_of_snoc.
  unfold visitDate. rewrite Hrun. simpl.
  erewrite pushPoint_spec by (rewrite Hncs', (Hncs _ Htotal); reflexivity).
  simpl. eexists. split; [reflexivity|].
  split_and!; simpl.
  - done.
  - intros n Hn. rewrite emittedFrom_snoc. simpl. unfold totalPoints.
    rewrite (sumValues_totalOf _ _ Hcur).
    destruct (decide (n = "Total")) as [->|Hne].
    + rewrite lookup_insert_eq. by rewrite <- app_assoc.
    + rewrite lookup_insert_ne by done. rewrite Hncs', (Hncs _ Hn). simpl.
      by rewrite app_nil_r.
  - rewrite (sumValues_totalOf _ _ Hcur). by destruct visited.
Qed.

Lemma startWalk_walked : walked valueOf symbols [] (startWalk symbols).
Proof.
  split_and!; simpl.
  - intros s Hs. by rewrite mapOfSymbols_lookup, decide_True.
  - intros n Hn. by rewrite emptySeries_lookup, decide_True.
  - done.
Qed.

(** The whole walk over any list of dates. *)
Lemma walk_spec (dates : list string) :
  ∃ w, forEach (visitDate stockValuesByDate symbols) dates (startWalk symbols)
         = Normal w
       ∧ walked valueOf symbols dates w.
Proof.
  apply forEach_invariant; [apply startWalk_walked|].
  intros pre d post w _ Hw. by apply visitDate_spec.
Qed.

End Walk.

(** ** The computation as a whole *)

(** On retrieved data nothing throws: the shares are the purchases, the
    dates are those of the symbols without repetition, and the walk over any
    dates ends in the state [walked] describes. *)
Lemma chart_spec timeValue portfolio stockData :
  retrieved stockData (stockSymbols portfolio) →
  ∃ shares allDates,
    sharesBought portfolio stockData = Normal shares
    ∧ (∀ s, shares !! s =
         purchase portfolio stockData
           <$> last (filter (λ a, symbol a = s) (assets portfolio)))
    ∧ NoDup allDates
    ∧ (∀ d, d ∈ allDates ↔ d ∈ unionDates stockData (stockSymbols portfolio))
    ∧ (∀ dates, ∃ w,
         walkTo portfolio stockData dates = Normal w
         ∧ walked (valueOn shares stockData) (stockSymbols portfolio) dates w)
    ∧ ∃ w,
        computeChart timeValue portfolio stockData =
          Normal {| datesSorted := sortDates timeValue allDates; final := w |}
        ∧ walked (valueOn shares stockData) (stockSymbols portfolio)
            (sortDates timeValue allDates) w.
Proof.
  intros Hr.
  destruct (sharesBought_spec _ _ Hr) as (shares & Hshares & Hlook).
  destruct (recordValues_spec _ _ shares Hr) as (svbd & allDates & Hrec & Hval & Hnd & Hin).
  exists shares, allDates. split_and!; try done.
  - intros dates.
    destruct (walk_spec _ _ _ Hval dates) as (w & Hw & Hwalked).
    exists w. split; [|done].
    unfold walkTo. rewrite Hshares. simpl. rewrite Hrec. simpl. exact Hw.
  - destruct (walk_spec _ _ _ Hval (sortDates timeValue allDates))
      as (w & Hw & Hwalked).
    exists w. split; [|done].
    unfold computeChart. rewrite Hshares. simpl. rewrite Hrec. simpl.
    rewrite Hw. reflexivity.
Qed.

(** ** The points of a series *)

Lemma symbolPoints_other valueOf (symbols : list string) (n d : string) :
  n ∉ symbols → symbolPoints valueOf symbols n d = [].
Proof.
  intros Hn. unfold symbolPoints.
  induction symbols as [|a l IH]; [done|].
  apply not_elem_of_cons in Hn as [Hne Hn]. simpl.
  rewrite decide_False by done. simpl. by apply IH.
Qed.

Lemma symbolPoints_unique valueOf (symbols : list string) (s d : string) :
  NoDup symbols → s ∈ symbols →
  symbolPoints valueOf symbols s d =
    match valueOf s d with
    | Some v => [{| x := d; y := Number.toFixed2 v |}]
    | None => []
    end.
Proof.
  induction symbols as [|a l IH]; intros Hnd Hs; [by apply elem_of_nil in Hs|].
  apply NoDup_cons in Hnd as [Ha Hnd].
  change (symbolPoints valueOf (a :: l) s d) with
    ((if decide (a = s)
      then match valueOf a d with
           | Some v => [{| x := d; y := Number.toFixed2 v |}]
           | None => []
           end
      else []) ++ symbolPoints valueOf l s d).
  destruct (decide (a = s)) as [->|Hne].
  - rewrite symbolPoints_other by done. by rewrite app_nil_r.
  - simpl. apply IH; [done|]. apply elem_of_cons in Hs as [->|Hs]; done.
Qed.

Section Points.

Variable valueOf : string → string → option float.
Variable symbols : list string.

(** A symbol's series holds one point for each date it has a value on, in
    the order of the walk. *)
Lemma emitted_symbol (s : string) (visited dates : list string) :
  NoDup symbols → s ∈ symbols → s ≠ "Total" →
  emittedFrom valueOf symbols s visited dates =
    omap (λ d, (λ v, {| x := d; y := Number.toFixed2 v |}) <$> valueOf s d) dates.
Proof.
  intros Hnd Hs Hne. revert visited.
  induction dates as [|d dates IH]; intros visited; simpl; [done|].
  rewrite symbolPoints_unique by done. unfold totalPoints.
  rewrite decide_False by done. simpl. rewrite IH.
  by destruct (valueOf s d).
Qed.

(** The series named Total holds one point for each date, when no symbol
    has that name. *)
Lemma emitted_total_dates (visited dates : list string) :
  "Total" ∉ symbols →
  x <$> emittedFrom valueOf symbols "Total" visited dates = dates.
Proof.
  intros Hn. revert visited.
  induction dates as [|d dates IH]; intros visited; simpl; [done|].
  rewrite symbolPoints_other by done. simpl. by rewrite IH.
Qed.

Lemma emitted_total_lookup (visited pre post : list string) (d : string) :
  "Total" ∉ symbols →
  emittedFrom valueOf symbols "Total" visited (pre ++ d :: post) !! length pre =
    Some {| x := d;
            y := Number.toFixed2 (totalOf valueOf symbols (visited ++ pre ++ [d])) |}.
Proof.
  intros Hn. revert visited.
  induction pre as [|d' pre IH]; intros visited; simpl.
  - by rewrite symbolPoints_other by done.
  - rewrite symbolPoints_other by done. simpl. rewrite IH.
    by rewrite <- app_assoc.
Qed.

(** Every point of every series shows either a symbol's value on the
    point's date or the total of the walk up to that date. *)
Lemma emitted_origin (n : string) (visited dates : list string) (pt : point) :
  pt ∈ emittedFrom valueOf symbols n visited dates →
  (∃ v, n ∈ symbols ∧ x pt ∈ dates ∧ valueOf n (x pt) = Some v
        ∧ y pt = Number.toFixed2 v)
  ∨ (n = "Total" ∧ ∃ pre post,
       dates = pre ++ x pt :: post
       ∧ y pt = Number.toFixed2 (totalOf valueOf symbols (visited ++ pre ++ [x pt]))).
Proof.
  revert visited. induction dates as [|d dates IH]; intros visited Hpt; simpl in Hpt.
  { by apply elem_of_nil in Hpt. }
  rewrite !elem_of_app in Hpt. destruct Hpt as [Hpt|[Hpt|Hpt]].
  - left. unfold symbolPoints in Hpt. apply list_elem_of_bind in Hpt as (s & Hpt & Hs).
    destruct (decide (s = n)) as [->|]; [|by apply elem_of_nil in Hpt].
    destruct (valueOf n d) as [v|] eqn:Hv; [|by apply elem_of_nil in Hpt].
    apply list_elem_of_singleton in Hpt as ->. simpl.
    exists v. split_and!; [done|by left|done|done].
  - right. unfold totalPoints in Hpt.
    destruct (decide (n = "Total")) as [->|]; [|by apply elem_of_nil in Hpt].
    apply list_elem_of_singleton in Hpt as ->. simpl.
    split; [done|]. by exists [], dates.
  - destruct (IH _ Hpt) as [(v & Hn & Hx & Hv & Hy)|(Hn & pre & post & Hd & Hy)].
    + left. exists v. split_and!; [done|by right|done|done].
    + right. split; [done|]. exists (d :: pre), post. split.
      * by rewrite Hd.
      * rewrite Hy. by rewrite <- app_assoc.
Qed.

End Points.

(** ** Checking the hypotheses on concrete data *)

Lemma retrievedb_retrieved stockData symbols :
  retrievedb stockData symbols = true → retrieved stockData symbols.
Proof.
  unfold retrievedb. rewrite forallb_forall. intros H s Hs.
  apply list_elem_of_In in Hs. specialize (H s Hs).
  destruct (stockData !! s) as [entry|]; simpl in H; [|done].
  destruct (values entry) as [[|q days]|] eqn:Hv; try done.
  by exists entry, (q :: days).
Qed.

Lemma descendingb_descending timeValue days :
  descendingb timeValue days = true → descending timeValue days.
Proof.
  unfold descending. induction days as [|q rest IH]; simpl; intros H.
  - constructor.
  - apply andb_true_iff in H as [Hall Hrest]. constructor; [by apply IH|].
    rewrite forallb_forall in Hall. apply Forall_forall. intros q' Hq'.
    apply Z.leb_le, Hall. by apply list_elem_of_In.
Qed.

(** ** Share allocation *)

Lemma descending_last timeValue (days : list tradingDay) (q : tradingDay) :
  descending timeValue days → last days = Some q →
  ∀ q', q' ∈ days → timeValue (datetime q) ≤ timeValue (datetime q').
Proof.
  unfold descending. induction 1 as [|a l Hs IH Hall]; intros Hlast q' Hq'.
  { by apply elem_of_nil in Hq'. }
  destruct l as [|b l].
  - simpl in Hlast. injection Hlast as <-.
    apply list_elem_of_singleton in Hq' as ->. lia.
  - change (last (a :: b :: l)) with (last (b :: l)) in Hlast.
    apply elem_of_cons in Hq' as [->|Hq']; [|by apply IH].
    rewrite Forall_forall in Hall. apply Hall.
    apply last_Some in Hlast as [l' ->]. apply elem_of_snoc.
Qed.

(** C1 (amended): for every asset of a plan with unique symbols whose data
    was retrieved, the share count is (initial amount * portion) divided by
    the closing price of the last trading day the response lists for the
    symbol; when the response lists the days latest first, as the code
    assumes, that day is the earliest date of the symbol's series. *)
Theorem shares_at_earliest_close_when_descending
    (timeValue : string → Z) (portfolio : portfolio)
    (stockData : gmap string payload) (a : asset) :
  retrieved stockData (stockSymbols portfolio) →
  NoDup (stockSymbols portfolio) →
  a ∈ assets portfolio →
  descending timeValue (daysOf stockData (symbol a)) →
  ∃ shares q,
    sharesBought portfolio stockData = Normal shares
    ∧ last (daysOf stockData (symbol a)) = Some q
    ∧ (∀ q', q' ∈ daysOf stockData (symbol a) →
         timeValue (datetime q) ≤ timeValue (datetime q'))
    ∧ shares !! symbol a = Some (initial portfolio * portion a / close q)%float.
Proof.
  intros Hr Hnd Ha Hdesc.
  destruct (sharesBought_asset _ _ _ Hr Hnd Ha) as (shares & Hrun & Hlook).
  assert (symbol a ∈ stockSymbols portfolio) as Hs.
  { apply list_elem_of_fmap. by exists a. }
  destruct (retrieved_daysOf _ _ _ Hr Hs) as (entry & _ & _ & Hne).
  destruct (last (daysOf stockData (symbol a))) as [q|] eqn:Hlast;
    [|by apply last_None in Hlast].
  exists shares, q. split_and!; [done|done| |].
  - by apply (descending_last timeValue _ q).
  - rewrite Hlook. unfold purchase. rewrite Hlast. simpl.
    by rewrite (float_mul_comm (portion a)).
Qed.

Lemma shares_at_earliest_close_witness :
  ∃ shares q,
    sharesBought Scenario.planX Scenario.dataX = Normal shares
    ∧ last (daysOf Scenario.dataX "X") = Some q
    ∧ (∀ q', q' ∈ daysOf Scenario.dataX "X" →
         IsoDate.timeValue (datetime q) ≤ IsoDate.timeValue (datetime q'))
    ∧ shares !! "X" = Some (1000 * 1 / close q)%float.
Proof.
  apply (shares_at_earliest_close_when_descending IsoDate.timeValue
           Scenario.planX Scenario.dataX (Scenario.holding "X" 1%float)).
  - apply retrievedb_retrieved. evaluated.
  - decided.
  - left.
  - apply descendingb_descending. evaluated.
Defined.

(** The scenario of the claim, with the quotes listed latest first: ten
    shares. *)
Example shares_scenario :
  ∃ shares, sharesBought Scenario.planX Scenario.dataX = Normal shares
            ∧ shares !! "X" = Some 10%float.
Proof. eexists. split; [evaluated|]. evaluated. Qed.

(** C1 (as stated) fails when the response lists the quotes earliest first:
    the shares are bought at the close of the last listed day, 150, not at
    the close of the earliest date, 100. *)
Lemma shares_at_last_listed_close_not_earliest :
  ∃ shares v,
    sharesBought Scenario.planX Scenario.dataXascending = Normal shares
    ∧ shares !! "X" = Some v
    ∧ quoteOn Scenario.dataXascending "X" Scenario.d1
        = Some (Scenario.day Scenario.d1 100%float)
    ∧ IsoDate.timeValue Scenario.d1 < IsoDate.timeValue Scenario.d2
    ∧ v = (1000 / 150)%float
    ∧ v ≠ (1000 * 1 / 100)%float.
Proof.
  eexists. eexists. split_and!.
  - evaluated.
  - evaluated.
  - evaluated.
  - evaluated.
  - evaluated.
  - intros H. apply (f_equal (λ v, PrimFloat.ltb v 10%float)) in H.
    vm_compute in H. discriminate.
Qed.

(** ** The timeline *)

(** C2 (amended): on retrieved data the walk visits the dates of the
    symbols' series: each date string of the union once and no other date, in
    ascending order of time, strictly ascending when distinct date strings
    denote distinct instants; and the points of the Total series are one per
    visited date when no symbol is itself named Total. *)
Theorem one_total_point_per_date_ascending
    (timeValue : string → Z) (portfolio : portfolio)
    (stockData : gmap string payload) :
  retrieved stockData (stockSymbols portfolio) →
  ∃ c total,
    computeChart timeValue portfolio stockData = Normal c
    ∧ newChartSeries (final c) !! "Total" = Some total
    ∧ NoDup (datesSorted c)
    ∧ (∀ d, d ∈ datesSorted c ↔ d ∈ unionDates stockData (stockSymbols portfolio))
    ∧ StronglySorted (notAfter timeValue) (datesSorted c)
    ∧ ((∀ a b, a ∈ unionDates stockData (stockSymbols portfolio) →
               b ∈ unionDates stockData (stockSymbols portfolio) →
               timeValue a = timeValue b → a = b) →
       StronglySorted (before timeValue) (datesSorted c))
    ∧ ("Total" ∉ stockSymbols portfolio → x <$> data total = datesSorted c).
Proof.
  intros Hr.
  destruct (chart_spec timeValue _ _ Hr)
    as (shares & allDates & _ & _ & Hnd & Hin & _ & w & Hrun & _ & Hncs & _).
  eexists. eexists. split; [exact Hrun|]. simpl.
  split; [apply Hncs, elem_of_snoc|]. simpl.
  assert (∀ d, d ∈ sortDates timeValue allDates
               ↔ d ∈ unionDates stockData (stockSymbols portfolio)) as Hin'.
  { intros d. by rewrite sortDates_elem_of. }
  split_and!.
  - by apply sortDates_NoDup.
  - done.
  - apply sortDates_sorted.
  - intros Hinj. apply sorted_strictly.
    + intros a b Ha Hb. apply Hinj; by apply Hin'.
    + by apply sortDates_NoDup.
    + apply sortDates_sorted.
  - intros Hn. by apply emitted_total_dates.
Qed.

Lemma one_total_point_per_date_witness :
  ∃ c total,
    computeChart IsoDate.timeValue Scenario.planXY Scenario.dataXY = Normal c
    ∧ newChartSeries (final c) !! "Total" = Some total
    ∧ NoDup (datesSorted c)
    ∧ (∀ d, d ∈ datesSorted c
            ↔ d ∈ unionDates Scenario.dataXY (stockSymbols Scenario.planXY))
    ∧ StronglySorted (notAfter IsoDate.timeValue) (datesSorted c)
    ∧ StronglySorted (before IsoDate.timeValue) (datesSorted c)
    ∧ x <$> data total = datesSorted c.
Proof.
  destruct (one_total_point_per_date_ascending IsoDate.timeValue
              Scenario.planXY Scenario.dataXY)
    as (c & total & Hrun & Htotal & Hnd & Hin & Hsorted & Hstrict & Hpoints).
  { apply retrievedb_retrieved. evaluated. }
  exists c, total. split_and!; [done|done|done|done|done| |].
  - apply Hstrict. intros a b Ha Hb Heq.
    assert (unionDates Scenario.dataXY (stockSymbols Scenario.planXY)
            = [Scenario.d2; Scenario.d1; Scenario.d1]) as Hunion by evaluated.
    rewrite Hunion in Ha, Hb.
    repeat (apply elem_of_cons in Ha as [->|Ha]);
      [..|by apply elem_of_nil in Ha];
      (repeat (apply elem_of_cons in Hb as [->|Hb]);
       [..|by apply elem_of_nil in Hb]);
      try reflexivity; vm_compute in Heq; discriminate.
  - apply Hpoints. decided.
Defined.

(** C2 (as stated) fails on two inputs.  When the values of X list one day
    under two spellings of the same instant, both strings are visited and
    each gets a total point: two points for one instant, not in strictly
    ascending order.  When the plan's symbol is itself named Total, the
    series named Total has two points at every date. *)
Lemma same_instant_or_symbol_named_Total_gives_two_total_points :
  (∃ c total,
     computeChart IsoDate.timeValue Scenario.planX Scenario2.dataSameInstant
       = Normal c
     ∧ datesSorted c = [Scenario2.dSame; Scenario.d1]
     ∧ IsoDate.timeValue Scenario2.dSame = IsoDate.timeValue Scenario.d1
     ∧ ¬ StronglySorted (before IsoDate.timeValue) [Scenario2.dSame; Scenario.d1]
     ∧ newChartSeries (final c) !! "Total" = Some total
     ∧ data total = [ {| x := Scenario2.dSame; y := "1500.00" |};
                      {| x := Scenario.d1; y := "1000.00" |} ])
  ∧ (∃ c total,
       computeChart IsoDate.timeValue Scenario2.planTotal Scenario2.dataTotal
         = Normal c
       ∧ datesSorted c = [Scenario.d1; Scenario.d2]
       ∧ newChartSeries (final c) !! "Total" = Some total
       ∧ x <$> data total = [Scenario.d1; Scenario.d1; Scenario.d2; Scenario.d2]).
Proof.
  split.
  - eexists _, _. split_and!; [evaluated|evaluated|evaluated| |evaluated|evaluated].
    intros Hsorted. apply StronglySorted_inv in Hsorted as [_ Hall].
    apply Forall_cons in Hall as [Hlt _]. unfold before in Hlt.
    vm_compute in Hlt. discriminate.
  - eexists _, _. split_and!; evaluated.
Qed.

(** The timeline and the Total series of the two-symbol scenario. *)
Example timeline_scenario :
  ∃ c total,
    computeChart IsoDate.timeValue Scenario.planXY Scenario.dataXY = Normal c
    ∧ datesSorted c = [Scenario.d1; Scenario.d2]
    ∧ newChartSeries (final c) !! "Total" = Some total
    ∧ data total = [ {| x := Scenario.d1; y := "200.00" |};
                     {| x := Scenario.d2; y := "300.00" |} ].
Proof.
  eexists. eexists. split_and!; [evaluated| | |];
    evaluated.
Qed.

(** ** Carry-forward *)

Lemma lastKnown_cases (valueOf : string → option float) (dates : list string) :
  ((∀ d, d ∈ dates → valueOf d = None) ∧ lastKnown valueOf dates = 0%float)
  ∨ (∃ pre d v post,
       dates = pre ++ d :: post
       ∧ valueOf d = Some v
       ∧ (∀ d', d' ∈ post → valueOf d' = None)
       ∧ lastKnown valueOf (pre ++ [d]) = v
       ∧ lastKnown valueOf dates = v).
Proof.
  induction dates as [|a dates IH] using rev_ind.
  { left. split; [|done]. intros d Hd. by apply elem_of_nil in Hd. }
  rewrite lastKnown_snoc. destruct (valueOf a) as [v|] eqn:Ha; simpl.
  - right. exists dates, a, v, []. rewrite lastKnown_snoc, Ha.
    split_and!; try done. intros d' Hd'. by apply elem_of_nil in Hd'.
  - destruct IH as [[Hnone H0]|(pre & d & v & post & -> & Hd & Hpost & Hv & Hl)].
    + left. split; [|done]. intros d Hd.
      apply elem_of_app in Hd as [Hd|Hd]; [by apply Hnone|].
      by apply list_elem_of_singleton in Hd as ->.
    + right. exists pre, d, v, (post ++ [a]).
      rewrite <- app_assoc. split_and!; try done.
      intros d' Hd'. apply elem_of_app in Hd' as [Hd'|Hd']; [by apply Hpost|].
      by apply list_elem_of_singleton in Hd' as ->.
Qed.



(** The scenario of the claim: A quoted on the first and third date only, B
    on all three; on the second date A still counts with its value of the
    first. *)
Example carry_forward_scenario :
  ∃ c w1 w2,
    computeChart IsoDate.timeValue Scenario.planAB Scenario.dataAB = Normal c
    ∧ datesSorted c = [Scenario.d1; Scenario.d2; Scenario.d3]
    ∧ walkTo Scenario.planAB Scenario.dataAB [Scenario.d1] = Normal w1
    ∧ walkTo Scenario.planAB Scenario.dataAB [Scenario.d1; Scenario.d2] = Normal w2
    ∧ currentValues w1 !! "A" = Some 100%float
    ∧ currentValues w2 !! "A" = Some 100%float
    ∧ portfolioValue w2 = 220%float.
Proof.
  eexists. eexists. eexists.
  split_and!; [evaluated| |evaluated
              |evaluated| | |]; evaluated.
Qed.

(** ** Conservation *)

Lemma emittedFrom_cons valueOf symbols (n : string) (visited : list string)
    (d : string) (rest : list string) :
  emittedFrom valueOf symbols n visited (d :: rest) =
    symbolPoints valueOf symbols n d
      ++ totalPoints valueOf symbols n (visited ++ [d]) d
      ++ emittedFrom valueOf symbols n (visited ++ [d]) rest.
Proof. reflexivity. Qed.

Lemma emitted_total_elem valueOf symbols (visited pre post : list string) (d : string) :
  {| x := d;
     y := Number.toFixed2 (totalOf valueOf symbols (visited ++ pre ++ [d])) |}
    ∈ emittedFrom valueOf symbols "Total" visited (pre ++ d :: post).
Proof.
  revert visited. induction pre as [|d' pre IH]; intros visited.
  - rewrite !app_nil_l, emittedFrom_cons.
    apply elem_of_app. right. apply elem_of_app. left.
    unfold totalPoints. rewrite decide_True by done. by left.
  - rewrite <- !app_comm_cons, emittedFrom_cons.
    apply elem_of_app. right. apply elem_of_app. right.
    specialize (IH (visited ++ [d'])). by rewrite <- app_assoc in IH.
Qed.

(** C4 (amended): at every date of the timeline, the total is the sum, over
    the plan's symbols in order and from zero, of the symbol's current value
    at that date (the value of its quote on the date, else the value it had
    before the date, zero at first), and the Total series holds that sum,
    formatted, at that date. *)
Theorem total_is_sum_of_current_values
    (timeValue : string → Z) (portfolio : portfolio)
    (stockData : gmap string payload) (c : chart)
    (visited : list string) (d : string) (later : list string) :
  retrieved stockData (stockSymbols portfolio) →
  computeChart timeValue portfolio stockData = Normal c →
  datesSorted c = visited ++ d :: later →
  ∃ shares w total,
    let current := λ s, lastKnown (valueOn shares stockData s) (visited ++ [d]) in
    let sum :=
      foldl (λ sum s, (sum + current s)%float) 0%float (stockSymbols portfolio) in
    sharesBought portfolio stockData = Normal shares
    ∧ walkTo portfolio stockData (visited ++ [d]) = Normal w
    ∧ (∀ s, s ∈ stockSymbols portfolio → currentValues w !! s = Some (current s))
    ∧ (∀ s q, quoteOn stockData s d = Some q →
         current s = (Number.ofProperty (shares !! s) * close q)%float)
    ∧ (∀ s, quoteOn stockData s d = None →
         current s = lastKnown (valueOn shares stockData s) visited)
    ∧ portfolioValue w = sum
    ∧ newChartSeries (final c) !! "Total" = Some total
    ∧ {| x := d; y := Number.toFixed2 sum |} ∈ data total.
Proof.
  intros Hr Hrun Hdates.
  destruct (chart_spec timeValue _ _ Hr)
    as (shares & allDates & Hshares & _ & _ & _ & Hwalk & w0 & Hrun' & _ & Hncs & _).
  rewrite Hrun in Hrun'. injection Hrun' as ->. simpl in Hdates. simpl.
  destruct (Hwalk (visited ++ [d])) as (w & Hw & Hcv & _ & Hpv).
  assert (portfolioValue w =
            totalOf (valueOn shares stockData) (stockSymbols portfolio)
                    (visited ++ [d])) as Htotal.
  { rewrite Hpv. by destruct visited. }
  eexists shares, w, _. split_and!.
  - done.
  - done.
  - done.
  - intros s q Hq. rewrite lastKnown_snoc. unfold valueOn. by rewrite Hq.
  - intros s Hq. rewrite lastKnown_snoc. unfold valueOn. by rewrite Hq.
  - exact Htotal.
  - apply Hncs, elem_of_snoc.
  - simpl. rewrite Hdates.
    apply (emitted_total_elem _ _ [] visited later d).
Qed.

Lemma total_is_sum_witness :
  ∃ shares w total,
    let current := λ s, lastKnown (valueOn shares Scenario.dataXY s)
                                  ([Scenario.d1] ++ [Scenario.d2]) in
    let sum :=
      foldl (λ sum s, (sum + current s)%float) 0%float
            (stockSymbols Scenario.planXY) in
    sharesBought Scenario.planXY Scenario.dataXY = Normal shares
    ∧ walkTo Scenario.planXY Scenario.dataXY ([Scenario.d1] ++ [Scenario.d2])
        = Normal w
    ∧ (∀ s, s ∈ stockSymbols Scenario.planXY →
         currentValues w !! s = Some (current s))
    ∧ (∀ s q, quoteOn Scenario.dataXY s Scenario.d2 = Some q →
         current s = (Number.ofProperty (shares !! s) * close q)%float)
    ∧ (∀ s, quoteOn Scenario.dataXY s Scenario.d2 = None →
         current s = lastKnown (valueOn shares Scenario.dataXY s) [Scenario.d1])
    ∧ portfolioValue w = sum
    ∧ newChartSeries (final (Scenario.chartOf Scenario.planXY Scenario.dataXY))
        !! "Total" = Some total
    ∧ {| x := Scenario.d2; y := Number.toFixed2 sum |} ∈ data total.
Proof.
  apply (total_is_sum_of_current_values IsoDate.timeValue
           Scenario.planXY Scenario.dataXY
           (Scenario.chartOf Scenario.planXY Scenario.dataXY)
           [Scenario.d1] Scenario.d2 []).
  - apply retrievedb_retrieved. evaluated.
  - evaluated.
  - evaluated.
Defined.

(** C4 (as stated) fails in its second part: on the second date of the
    two-symbol scenario the Total series shows 300.00 while the symbols'
    series show 200.00 in all, Y having no point there. *)
Lemma total_series_differs_from_sum_of_symbol_series :
  ∃ c,
    computeChart IsoDate.timeValue Scenario.planXY Scenario.dataXY = Normal c
    ∧ Scenario.d2 ∈ datesSorted c
    ∧ shownOn (newChartSeries (final c) !! "Total") Scenario.d2 = 30000
    ∧ shownOn (newChartSeries (final c) !! "X") Scenario.d2 = 20000
    ∧ shownOn (newChartSeries (final c) !! "Y") Scenario.d2 = 0
    ∧ ¬ agreesOn (newChartSeries (final c)) (stockSymbols Scenario.planXY)
          Scenario.d2.
Proof.
  eexists. split_and!.
  - evaluated.
  - decided.
  - evaluated.
  - evaluated.
  - evaluated.
  - unfold agreesOn. intros H. vm_compute in H. by apply H.
Qed.

(** Rounding alone breaks the agreement too: four symbols worth 0.004 each
    show 0.00 each, and their total, 0.016, shows 0.02. *)
Example total_rounding_exceeds_tolerance :
  ∃ c,
    computeChart IsoDate.timeValue Scenario.planFour Scenario.dataFour = Normal c
    ∧ (∀ s, s ∈ stockSymbols Scenario.planFour →
         shownOn (newChartSeries (final c) !! s) Scenario.d2 = 0
         ∧ ∃ sr, newChartSeries (final c) !! s = Some sr
                 ∧ {| x := Scenario.d2; y := "0.00" |} ∈ data sr)
    ∧ shownOn (newChartSeries (final c) !! "Total") Scenario.d2 = 2
    ∧ ¬ agreesOn (newChartSeries (final c)) (stockSymbols Scenario.planFour)
          Scenario.d2.
Proof.
  eexists. split_and!.
  - evaluated.
  - intros s Hs. vm_compute in Hs.
    repeat (apply elem_of_cons in Hs as [->|Hs]);
      [..|by apply elem_of_nil in Hs];
      (split; [evaluated|]); eexists; (split; [evaluated|]);
      right; left.
  - evaluated.
  - unfold agreesOn. intros H. vm_compute in H. by apply H.
Qed.

(** ** A symbol with a single quote *)






(** ** The component's chart series *)

Lemma updateChartV2_fresh timeValue sampleData portfolio response c :
  rawStockData c = None →
  updateChartV2 timeValue sampleData portfolio response c =
    chartFrom timeValue portfolio sampleData
      (setRawStockData sampleData (setIsLoading true c)).
Proof. intros H. unfold updateChartV2, getRawStockData. simpl. by rewrite H. Qed.

Lemma chartSeries_showChart symbols w c :
  chartSeries (showChart symbols w c) =
    Some ((λ sName, newChartSeries w !! sName) <$> seriesNames symbols).
Proof. reflexivity. Qed.

(** On retrieved data a freshly mounted component ends with one series per
    series name, each holding the points pushed for that name. *)
Lemma chartSeries_spec timeValue sampleData portfolio response c :
  rawStockData c = None →
  retrieved sampleData (stockSymbols portfolio) →
  ∃ shares allDates w,
    sharesBought portfolio sampleData = Normal shares
    ∧ (∀ s, shares !! s =
         purchase portfolio sampleData
           <$> last (filter (λ a, symbol a = s) (assets portfolio)))
    ∧ NoDup allDates
    ∧ (∀ d, d ∈ allDates ↔ d ∈ unionDates sampleData (stockSymbols portfolio))
    ∧ (∀ dates, ∃ w',
         walkTo portfolio sampleData dates = Normal w'
         ∧ walked (valueOn shares sampleData) (stockSymbols portfolio) dates w')
    ∧ computeChart timeValue portfolio sampleData =
        Normal {| datesSorted := sortDates timeValue allDates; final := w |}
    ∧ (updateChartV2 timeValue sampleData portfolio response c).2 = Normal ()
    ∧ chartSeries (updateChartV2 timeValue sampleData portfolio response c).1 =
        Some ((λ n, Some {| name := n; type := "area";
                            data := emittedFrom (valueOn shares sampleData)
                                      (stockSymbols portfolio) n []
                                      (sortDates timeValue allDates) |})
                <$> seriesNames (stockSymbols portfolio)).
Proof.
  intros Hfresh Hr.
  destruct (chart_spec timeValue _ _ Hr)
    as (shares & allDates & Hshares & Hlook & Hnd & Hin & Hwalk
        & w & Hrun & _ & Hncs & _).
  exists shares, allDates, w. split_and!; try done.
  - rewrite updateChartV2_fresh by done. unfold chartFrom. by rewrite Hrun.
  - rewrite updateChartV2_fresh by done. unfold chartFrom. rewrite Hrun. simpl.
    f_equal. apply list_fmap_ext. intros i n Hi. apply Hncs.
    apply list_elem_of_lookup. by exists i.
Qed.

Lemma quoteOn_union stockData symbols s d :
  s ∈ symbols → is_Some (quoteOn stockData s d) → d ∈ unionDates stockData symbols.
Proof.
  intros Hs [q Hq]. unfold quoteOn in Hq.
  apply last_Some in Hq as [l Hl].
  assert (q ∈ filter (λ q, datetime q = d) (daysOf stockData s)) as Hin.
  { rewrite Hl. apply elem_of_snoc. }
  apply list_elem_of_filter in Hin as [Hd Hin].
  unfold unionDates. apply list_elem_of_bind. exists s. split; [|done].
  apply list_elem_of_fmap. by exists q.
Qed.

Lemma quoteOn_is_Some stockData s d :
  is_Some (quoteOn stockData s d) ↔ d ∈ datetime <$> daysOf stockData s.
Proof.
  unfold quoteOn. split.
  - intros [q Hq]. apply last_Some in Hq as [l Hl].
    assert (q ∈ filter (λ q, datetime q = d) (daysOf stockData s)) as Hin.
    { rewrite Hl. apply elem_of_snoc. }
    apply list_elem_of_filter in Hin as [Hd Hin].
    apply list_elem_of_fmap. by exists q.
  - intros Hd. apply list_elem_of_fmap in Hd as (q & -> & Hq).
    destruct (last (filter (λ q0, datetime q0 = datetime q) (daysOf stockData s)))
      eqn:Hlast; [done|].
    apply last_None in Hlast.
    eapply (filter_nil_not_elem_of _ _ q) in Hlast; done.
Qed.

Lemma valueOn_is_Some shares stockData s d :
  is_Some (valueOn shares stockData s d) ↔ is_Some (quoteOn stockData s d).
Proof. unfold valueOn. by rewrite fmap_is_Some. Qed.

Lemma StronglySorted_filter {A} (R : relation A) (P : A → Prop)
    `{∀ a, Decision (P a)} (l : list A) :
  StronglySorted R l → StronglySorted R (filter P l).
Proof.
  induction 1 as [|a l Hs IH Hall]; [constructor|].
  rewrite filter_cons. destruct (decide (P a)); [|done].
  constructor; [done|]. rewrite Forall_forall in Hall |- *.
  intros b Hb. apply list_elem_of_filter in Hb as [_ Hb]. by apply Hall.
Qed.

Lemma omap_dates (valueOf : string → option float) (dates : list string) :
  x <$> omap (λ d, (λ v, {| x := d; y := Number.toFixed2 v |}) <$> valueOf d) dates
  = filter (λ d, is_Some (valueOf d)) dates.
Proof.
  induction dates as [|d dates IH]; [done|].
  rewrite filter_cons. csimpl. destruct (valueOf d) as [v|] eqn:Hv; csimpl.
  - by rewrite IH.
  - by rewrite IH.
Qed.

(** C10 (amended): with unique symbols, the series of a symbol that is not
    named Total holds exactly one point for each date on which that symbol
    has a quote, with the formatted value of that quote, in the ascending
    order of the timeline, and no point for any other date. *)
Theorem symbol_series_has_exactly_its_quote_dates
    (timeValue : string → Z) (sampleData : gmap string payload)
    (portfolio : portfolio) (response : Z * gmap string payload)
    (c : component) (i : nat) (s : string) :
  rawStockData c = None →
  retrieved sampleData (stockSymbols portfolio) →
  NoDup (stockSymbols portfolio) →
  stockSymbols portfolio !! i = Some s →
  s ≠ "Total" →
  ∃ result shares out sr,
    computeChart timeValue portfolio sampleData = Normal result
    ∧ sharesBought portfolio sampleData = Normal shares
    ∧ chartSeries (updateChartV2 timeValue sampleData portfolio response c).1
        = Some out
    ∧ out !! i = Some (Some sr)
    ∧ name sr = s
    ∧ data sr =
        omap (λ d, (λ v, {| x := d; y := Number.toFixed2 v |})
                     <$> valueOn shares sampleData s d)
             (datesSorted result)
    ∧ x <$> data sr =
        filter (λ d, is_Some (quoteOn sampleData s d)) (datesSorted result)
    ∧ NoDup (x <$> data sr)
    ∧ (∀ d, d ∈ x <$> data sr ↔ d ∈ datetime <$> daysOf sampleData s)
    ∧ StronglySorted (notAfter timeValue) (x <$> data sr).
Proof.
  intros Hfresh Hr Hnd Hi Hne.
  destruct (chartSeries_spec timeValue _ _ response c Hfresh Hr)
    as (shares & allDates & w & Hshares & _ & Hnd' & Hin & _ & Hrun & _ & Hout).
  assert (s ∈ stockSymbols portfolio) as Hs.
  { apply list_elem_of_lookup. by exists i. }
  assert (x <$> omap (λ d, (λ v, {| x := d; y := Number.toFixed2 v |})
                             <$> valueOn shares sampleData s d)
                     (sortDates timeValue allDates)
          = filter (λ d, is_Some (quoteOn sampleData s d))
                   (sortDates timeValue allDates)) as Hdates.
  { rewrite omap_dates. apply list_filter_iff. intros d.
    apply valueOn_is_Some. }
  eexists _, shares, _, _. split_and!.
  - exact Hrun.
  - done.
  - exact Hout.
  - rewrite list_lookup_fmap. unfold seriesNames.
    rewrite lookup_app_l by (by apply lookup_lt_Some in Hi). by rewrite Hi.
  - done.
  - simpl. by apply emitted_symbol.
  - simpl. rewrite emitted_symbol by done. exact Hdates.
  - simpl. rewrite emitted_symbol by done. rewrite Hdates.
    by apply NoDup_filter, sortDates_NoDup.
  - intros d. simpl. rewrite emitted_symbol by done. rewrite Hdates.
    rewrite list_elem_of_filter, sortDates_elem_of, Hin, quoteOn_is_Some.
    split; [by intros [? _]|]. intros Hd. split; [done|].
    by apply (quoteOn_union _ _ s), quoteOn_is_Some.
  - simpl. rewrite emitted_symbol by done. rewrite Hdates.
    apply StronglySorted_filter, sortDates_sorted.
Qed.

Lemma symbol_series_witness :
  ∃ result shares out sr,
    computeChart IsoDate.timeValue Scenario.planXY Scenario.dataXY = Normal result
    ∧ sharesBought Scenario.planXY Scenario.dataXY = Normal shares
    ∧ chartSeries (updateChartV2 IsoDate.timeValue Scenario.dataXY
                     Scenario.planXY (200, ∅) mounted).1 = Some out
    ∧ out !! 1%nat = Some (Some sr)
    ∧ name sr = "Y"
    ∧ data sr =
        omap (λ d, (λ v, {| x := d; y := Number.toFixed2 v |})
                     <$> valueOn shares Scenario.dataXY "Y" d)
             (datesSorted result)
    ∧ x <$> data sr =
        filter (λ d, is_Some (quoteOn Scenario.dataXY "Y" d)) (datesSorted result)
    ∧ NoDup (x <$> data sr)
    ∧ (∀ d, d ∈ x <$> data sr ↔ d ∈ datetime <$> daysOf Scenario.dataXY "Y")
    ∧ StronglySorted (notAfter IsoDate.timeValue) (x <$> data sr).
Proof.
  apply (symbol_series_has_exactly_its_quote_dates IsoDate.timeValue
           Scenario.dataXY Scenario.planXY (200, ∅) mounted 1 "Y").
  - reflexivity.
  - apply retrievedb_retrieved. evaluated.
  - decided.
  - reflexivity.
  - discriminate.
Defined.

(** C10 (as stated) fails for a symbol named Total: its series is the
    object the totals are pushed to, so it holds the total's point beside
    the symbol's own on the first date, and the total's point on the second
    date, on which the symbol has no quote. *)
Lemma series_of_symbol_named_Total_holds_the_totals :
  ∃ out sr,
    chartSeries (updateChartV2 IsoDate.timeValue Scenario2.dataTotalY
                   Scenario2.planTotalY (200, ∅) mounted).1 = Some out
    ∧ stockSymbols Scenario2.planTotalY !! 0%nat = Some "Total"
    ∧ NoDup (stockSymbols Scenario2.planTotalY)
    ∧ out !! 0%nat = Some (Some sr)
    ∧ data sr = [ {| x := Scenario.d1; y := "100.00" |};
                  {| x := Scenario.d1; y := "200.00" |};
                  {| x := Scenario.d2; y := "220.00" |} ]
    ∧ datetime <$> daysOf Scenario2.dataTotalY "Total" = [Scenario.d1]
    ∧ quoteOn Scenario2.dataTotalY "Total" Scenario.d2 = None.
Proof.
  eexists _, _. split_and!;
    [evaluated|reflexivity|decided|evaluated|evaluated|evaluated|evaluated].
Qed.

(** C5 (amended): with unique symbols, none named Total, the chart has one
    series per symbol, in the plan's order and named after the symbol,
    holding the symbol's formatted value at each date on which the symbol
    has a quote and at no other date, followed by one series named Total
    holding the formatted total at every date of the timeline. *)
Theorem series_per_symbol_and_total
    (timeValue : string → Z) (sampleData : gmap string payload)
    (portfolio : portfolio) (response : Z * gmap string payload)
    (c : component) :
  rawStockData c = None →
  retrieved sampleData (stockSymbols portfolio) →
  NoDup (stockSymbols portfolio) →
  "Total" ∉ stockSymbols portfolio →
  ∃ result shares out,
    computeChart timeValue portfolio sampleData = Normal result
    ∧ sharesBought portfolio sampleData = Normal shares
    ∧ chartSeries (updateChartV2 timeValue sampleData portfolio response c).1
        = Some out
    ∧ length out = S (length (stockSymbols portfolio))
    ∧ (∀ i s, stockSymbols portfolio !! i = Some s →
         ∃ sr, out !! i = Some (Some sr)
           ∧ name sr = s ∧ type sr = "area"
           ∧ (∀ d v, valueOn shares sampleData s d = Some v →
                {| x := d; y := Number.toFixed2 v |} ∈ data sr)
           ∧ (∀ pt, pt ∈ data sr → is_Some (quoteOn sampleData s (x pt))))
    ∧ (∃ total,
         out !! length (stockSymbols portfolio) = Some (Some total)
         ∧ name total = "Total" ∧ type total = "area"
         ∧ x <$> data total = datesSorted result
         ∧ ∀ visited d later,
             datesSorted result = visited ++ d :: later →
             ∃ w, walkTo portfolio sampleData (visited ++ [d]) = Normal w
                  ∧ data total !! length visited =
                      Some {| x := d; y := Number.toFixed2 (portfolioValue w) |}).
Proof.
  intros Hfresh Hr Hnd Htotal.
  destruct (chartSeries_spec timeValue _ _ response c Hfresh Hr)
    as (shares & allDates & w & Hshares & _ & _ & Hin & Hwalk & Hrun & _ & Hout).
  eexists _, shares, _. split_and!.
  - exact Hrun.
  - done.
  - exact Hout.
  - rewrite length_fmap. unfold seriesNames. rewrite length_app. simpl. lia.
  - intros i s Hi.
    assert (s ∈ stockSymbols portfolio) as Hs.
    { apply list_elem_of_lookup. by exists i. }
    assert (s ≠ "Total") as Hne by congruence.
    eexists. split_and!.
    + rewrite list_lookup_fmap. unfold seriesNames.
      rewrite lookup_app_l by (by apply lookup_lt_Some in Hi). by rewrite Hi.
    + done.
    + done.
    + intros d v Hv. simpl. rewrite emitted_symbol by done.
      apply list_elem_of_omap. exists d. split; [|by rewrite Hv].
      apply sortDates_elem_of, Hin. apply (quoteOn_union _ _ s); [done|].
      apply (proj1 (valueOn_is_Some shares sampleData s d)). by rewrite Hv.
    + intros pt Hpt. simpl in Hpt. rewrite emitted_symbol in Hpt by done.
      apply list_elem_of_omap in Hpt as (d & _ & Hd).
      destruct (valueOn shares sampleData s d) as [v|] eqn:Hv; [|done].
      simpl in Hd. injection Hd as <-. simpl.
      apply (proj1 (valueOn_is_Some shares sampleData s d)). by rewrite Hv.
  - eexists. split_and!.
    + rewrite list_lookup_fmap. unfold seriesNames.
      by rewrite list_lookup_middle.
    + done.
    + done.
    + simpl. by apply emitted_total_dates.
    + simpl. intros visited d later Hdates.
      destruct (Hwalk (visited ++ [d])) as (w' & Hw' & _ & _ & Hpv).
      exists w'. split; [done|]. rewrite Hdates.
      rewrite emitted_total_lookup by done. rewrite Hpv. by destruct visited.
Qed.

Lemma series_per_symbol_and_total_witness :
  ∃ result shares out,
    computeChart IsoDate.timeValue Scenario.planXY Scenario.dataXY = Normal result
    ∧ sharesBought Scenario.planXY Scenario.dataXY = Normal shares
    ∧ chartSeries (updateChartV2 IsoDate.timeValue Scenario.dataXY
                     Scenario.planXY (200, ∅) mounted).1 = Some out
    ∧ length out = S (length (stockSymbols Scenario.planXY))
    ∧ (∀ i s, stockSymbols Scenario.planXY !! i = Some s →
         ∃ sr, out !! i = Some (Some sr)
           ∧ name sr = s ∧ type sr = "area"
           ∧ (∀ d v, valueOn shares Scenario.dataXY s d = Some v →
                {| x := d; y := Number.toFixed2 v |} ∈ data sr)
           ∧ (∀ pt, pt ∈ data sr → is_Some (quoteOn Scenario.dataXY s (x pt))))
    ∧ (∃ total,
         out !! length (stockSymbols Scenario.planXY) = Some (Some total)
         ∧ name total = "Total" ∧ type total = "area"
         ∧ x <$> data total = datesSorted result
         ∧ ∀ visited d later,
             datesSorted result = visited ++ d :: later →
             ∃ w, walkTo Scenario.planXY Scenario.dataXY (visited ++ [d]) = Normal w
                  ∧ data total !! length visited =
                      Some {| x := d; y := Number.toFixed2 (portfolioValue w) |}).
Proof.
  apply (series_per_symbol_and_total IsoDate.timeValue
           Scenario.dataXY Scenario.planXY (200, ∅) mounted).
  - reflexivity.
  - apply retrievedb_retrieved. evaluated.
  - decided.
  - decided.
Defined.

(** C5 (as stated) fails on the two-symbol scenario: the second date is on
    the timeline, and the series of Y, which has no quote on it, has no
    point there. *)
Lemma symbol_series_lacks_dates_without_quote :
  ∃ result out sr,
    computeChart IsoDate.timeValue Scenario.planXY Scenario.dataXY = Normal result
    ∧ chartSeries (updateChartV2 IsoDate.timeValue Scenario.dataXY
                     Scenario.planXY (200, ∅) mounted).1 = Some out
    ∧ out !! 1%nat = Some (Some sr)
    ∧ name sr = "Y"
    ∧ data sr = [ {| x := Scenario.d1; y := "100.00" |} ]
    ∧ Scenario.d2 ∈ datesSorted result
    ∧ Scenario.d2 ∈ unionDates Scenario.dataXY (stockSymbols Scenario.planXY)
    ∧ Scenario.d2 ∉ x <$> data sr.
Proof.
  eexists. eexists. eexists. split_and!.
  - evaluated.
  - evaluated.
  - evaluated.
  - reflexivity.
  - reflexivity.
  - decided.
  - decided.
  - decided.
Qed.

(** The chart of the one-symbol scenario of the claims. *)
Example chart_scenario :
  chartSeries (updateChartV2 IsoDate.timeValue Scenario.dataX
                 Scenario.planX (200, ∅) mounted).1 =
    Some [ Some {| name := "X"; type := "area";
                   data := [ {| x := Scenario.d1; y := "1000.00" |};
                             {| x := Scenario.d2; y := "1500.00" |} ] |};
           Some {| name := "Total"; type := "area";
                   data := [ {| x := Scenario.d1; y := "1000.00" |};
                             {| x := Scenario.d2; y := "1500.00" |} ] |} ].
Proof. evaluated. Qed.

(** ** Formatting at the output only *)

(** C7 (amended): every y of every series of the chart is [toFixed(2)] of
    a value computed without rounding: for a symbol's series, the product of
    the symbol's shares (an unrounded quotient) and the close of the quote
    on the point's date; for the Total series, the sum of the symbols'
    current values at the point's date, themselves such products carried
    forward unchanged.  When that value is finite and below 10^21 in
    magnitude the text is its nearest hundredth written with exactly two
    decimals. *)
Theorem displayed_values_are_formatted_full_precision_values
    (timeValue : string → Z) (sampleData : gmap string payload)
    (portfolio : portfolio) (response : Z * gmap string payload)
    (c : component) :
  rawStockData c = None →
  retrieved sampleData (stockSymbols portfolio) →
  ∃ result shares out,
    computeChart timeValue portfolio sampleData = Normal result
    ∧ sharesBought portfolio sampleData = Normal shares
    ∧ (∀ s, shares !! s =
         purchase portfolio sampleData
           <$> last (filter (λ a, symbol a = s) (assets portfolio)))
    ∧ chartSeries (updateChartV2 timeValue sampleData portfolio response c).1
        = Some out
    ∧ ∀ sr pt, Some sr ∈ out → pt ∈ data sr →
        ∃ v,
          y pt = Number.toFixed2 v
          ∧ (displayable v → twoDecimals v (y pt))
          ∧ ((∃ q, name sr ∈ stockSymbols portfolio
                   ∧ quoteOn sampleData (name sr) (x pt) = Some q
                   ∧ v = (Number.ofProperty (shares !! name sr) * close q)%float)
             ∨ (name sr = "Total"
                ∧ ∃ visited later w,
                    datesSorted result = visited ++ x pt :: later
                    ∧ walkTo portfolio sampleData (visited ++ [x pt]) = Normal w
                    ∧ (∀ s, s ∈ stockSymbols portfolio →
                         currentValues w !! s =
                           Some (lastKnown (valueOn shares sampleData s)
                                           (visited ++ [x pt])))
                    ∧ portfolioValue w = v
                    ∧ v = foldl (λ sum s,
                                   (sum + lastKnown (valueOn shares sampleData s)
                                                    (visited ++ [x pt]))%float)
                                0%float (stockSymbols portfolio))).
Proof.
  intros Hfresh Hr.
  destruct (chartSeries_spec timeValue _ _ response c Hfresh Hr)
    as (shares & allDates & w & Hshares & Hlook & _ & _ & Hwalk & Hrun & _ & Hout).
  eexists _, shares, _. split_and!.
  - exact Hrun.
  - done.
  - done.
  - exact Hout.
  - intros sr pt Hsr Hpt.
    apply list_elem_of_fmap in Hsr as (n & Hsr & Hn). injection Hsr as ->.
    simpl in *.
    apply emitted_origin in Hpt
      as [(v & Hin & _ & Hv & Hy)|(-> & pre & post & Hdates & Hy)].
    + exists v. split_and!; [done| |].
      * rewrite Hy. apply toFixed2_twoDecimals.
      * left. unfold valueOn in Hv.
        destruct (quoteOn sampleData n (x pt)) as [q|]; [|done].
        simpl in Hv. injection Hv as <-. by exists q.
    + eexists. split_and!; [exact Hy| |].
      * rewrite Hy. apply toFixed2_twoDecimals.
      * right. split; [done|].
        destruct (Hwalk (pre ++ [x pt])) as (w' & Hw' & Hcv & _ & Hpv).
        exists pre, post, w'. split_and!; [done|done|done| |done].
        rewrite Hpv. by destruct pre.
Qed.

Lemma displayed_values_witness :
  ∃ result shares out,
    computeChart IsoDate.timeValue Scenario.planXY Scenario.dataXY = Normal result
    ∧ sharesBought Scenario.planXY Scenario.dataXY = Normal shares
    ∧ (∀ s, shares !! s =
         purchase Scenario.planXY Scenario.dataXY
           <$> last (filter (λ a, symbol a = s) (assets Scenario.planXY)))
    ∧ chartSeries (updateChartV2 IsoDate.timeValue Scenario.dataXY
                     Scenario.planXY (200, ∅) mounted).1 = Some out
    ∧ ∀ sr pt, Some sr ∈ out → pt ∈ data sr →
        ∃ v,
          y pt = Number.toFixed2 v
          ∧ (displayable v → twoDecimals v (y pt))
          ∧ ((∃ q, name sr ∈ stockSymbols Scenario.planXY
                   ∧ quoteOn Scenario.dataXY (name sr) (x pt) = Some q
                   ∧ v = (Number.ofProperty (shares !! name sr) * close q)%float)
             ∨ (name sr = "Total"
                ∧ ∃ visited later w,
                    datesSorted result = visited ++ x pt :: later
                    ∧ walkTo Scenario.planXY Scenario.dataXY (visited ++ [x pt])
                        = Normal w
                    ∧ (∀ s, s ∈ stockSymbols Scenario.planXY →
                         currentValues w !! s =
                           Some (lastKnown (valueOn shares Scenario.dataXY s)
                                           (visited ++ [x pt])))
                    ∧ portfolioValue w = v
                    ∧ v = foldl (λ sum s,
                                   (sum + lastKnown (valueOn shares Scenario.dataXY s)
                                                    (visited ++ [x pt]))%float)
                                0%float (stockSymbols Scenario.planXY))).
Proof.
  apply (displayed_values_are_formatted_full_precision_values IsoDate.timeValue
           Scenario.dataXY Scenario.planXY (200, ∅) mounted).
  - reflexivity.
  - apply retrievedb_retrieved. evaluated.
Defined.

(** C7 (as stated) fails for a value that is not below 10^21: a plan of
    10^21 invested at a price of 1 is worth 10^21 and is displayed in
    exponent notation, without decimals. *)
Lemma value_of_1e21_is_displayed_without_decimals :
  ∃ out,
    chartSeries (updateChartV2 IsoDate.timeValue Scenario2.dataHuge
                   Scenario2.planHuge (200, ∅) mounted).1 = Some out
    ∧ out = [ Some {| name := "X"; type := "area";
                      data := [ {| x := Scenario.d1; y := "1e+21" |} ] |};
              Some {| name := "Total"; type := "area";
                      data := [ {| x := Scenario.d1; y := "1e+21" |} ] |} ]
    ∧ sharesBought Scenario2.planHuge Scenario2.dataHuge
        = Normal {[ "X" := 1e21%float ]}
    ∧ Number.toFixed2 (1e21 * 1)%float = "1e+21"
    ∧ ¬ displayable (1e21 * 1)%float.
Proof.
  eexists. split_and!; [evaluated|reflexivity|evaluated|evaluated|].
  intros H. vm_compute in H. discriminate.
Qed.

(** ** Running the component *)

Lemma ensureRetrieved_all stockData symbols c :
  foldl (ensureRetrieved stockData) c symbols =
    if anyMissing stockData symbols
    then setErrMsg
           "Sorry, but data could not be retrieved for every stock in your portfolio." c
    else c.
Proof.
  revert c. induction symbols as [|s symbols IH]; intros c; [done|].
  simpl. rewrite IH. unfold ensureRetrieved.
  destruct (stockData !! s) as [entry|]; simpl.
  - destruct (decide (status entry = "ok")) as [Hok|Hno].
    + by rewrite bool_decide_eq_true_2.
    + rewrite bool_decide_eq_false_2 by done. simpl.
      by destruct (anyMissing stockData symbols).
  - by destruct (anyMissing stockData symbols).
Qed.

(** A run from a component without cached data: the sample data is cached,
    the error message is set if some symbol's data is missing, and either
    the computation throws or the chart is shown. *)
Lemma updateChartV2_run timeValue sampleData portfolio response c :
  rawStockData c = None →
  updateChartV2 timeValue sampleData portfolio response c =
    let c' := foldl (ensureRetrieved sampleData)
                (setRawStockData sampleData (setIsLoading true c))
                (stockSymbols portfolio) in
    match computeChart timeValue portfolio sampleData with
    | Throw e => (c', Throw e)
    | Normal result =>
        (showChart (stockSymbols portfolio) (final result) c', Normal ())
    end.
Proof. intros H. by rewrite updateChartV2_fresh. Qed.

(** A run from a component that cached the same data does the same. *)
Lemma updateChartV2_cached timeValue sampleData portfolio response c :
  rawStockData c = Some sampleData →
  updateChartV2 timeValue sampleData portfolio response c =
    let c' := foldl (ensureRetrieved sampleData) (setIsLoading true c)
                (stockSymbols portfolio) in
    match computeChart timeValue portfolio sampleData with
    | Throw e => (c', Throw e)
    | Normal result =>
        (showChart (stockSymbols portfolio) (final result) c', Normal ())
    end.
Proof.
  intros H. unfold updateChartV2, getRawStockData. simpl. by rewrite H.
Qed.

(** C9: run on a freshly mounted component and run again on the state the
    first run left, with the same plan and the same data, [updateChartV2]
    ends in the same state, chart series included, and completes the same
    way; and the chart series of a run do not depend on what the component's
    state held before. *)
Theorem rerun_gives_identical_series
    (timeValue : string → Z) (sampleData : gmap string payload)
    (portfolio : portfolio) (response : Z * gmap string payload)
    (c : component) :
  rawStockData c = None →
  updateChartV2 timeValue sampleData portfolio response
      (updateChartV2 timeValue sampleData portfolio response c).1
    = updateChartV2 timeValue sampleData portfolio response c
  ∧ ∀ c', rawStockData c' = None →
      (updateChartV2 timeValue sampleData portfolio response c').2
        = (updateChartV2 timeValue sampleData portfolio response c).2
      ∧ ((updateChartV2 timeValue sampleData portfolio response c).2 = Normal () →
         chartSeries (updateChartV2 timeValue sampleData portfolio response c').1
           = chartSeries (updateChartV2 timeValue sampleData portfolio response c).1).
Proof.
  intros Hfresh. split.
  - rewrite (updateChartV2_run _ _ _ _ c Hfresh). simpl.
    rewrite ensureRetrieved_all.
    destruct (computeChart timeValue portfolio sampleData) as [result|e] eqn:Hrun;
      simpl.
    + rewrite updateChartV2_cached
        by (by destruct (anyMissing sampleData (stockSymbols portfolio))).
      simpl. rewrite Hrun, ensureRetrieved_all.
      by destruct (anyMissing sampleData (stockSymbols portfolio)).
    + rewrite updateChartV2_cached
        by (by destruct (anyMissing sampleData (stockSymbols portfolio))).
      simpl. rewrite Hrun, ensureRetrieved_all.
      by destruct (anyMissing sampleData (stockSymbols portfolio)).
  - intros c' Hfresh'.
    rewrite (updateChartV2_run _ _ _ _ c Hfresh),
            (updateChartV2_run _ _ _ _ c' Hfresh'). simpl.
    by destruct (computeChart timeValue portfolio sampleData).
Qed.

Lemma rerun_witness :
  updateChartV2 IsoDate.timeValue Scenario.dataXY Scenario.planXY (200, ∅)
      (updateChartV2 IsoDate.timeValue Scenario.dataXY Scenario.planXY
         (200, ∅) mounted).1
    = updateChartV2 IsoDate.timeValue Scenario.dataXY Scenario.planXY
        (200, ∅) mounted
  ∧ ∀ c', rawStockData c' = None →
      (updateChartV2 IsoDate.timeValue Scenario.dataXY Scenario.planXY
         (200, ∅) c').2
        = (updateChartV2 IsoDate.timeValue Scenario.dataXY Scenario.planXY
             (200, ∅) mounted).2
      ∧ ((updateChartV2 IsoDate.timeValue Scenario.dataXY Scenario.planXY
            (200, ∅) mounted).2 = Normal () →
         chartSeries (updateChartV2 IsoDate.timeValue Scenario.dataXY
                        Scenario.planXY (200, ∅) c').1
           = chartSeries (updateChartV2 IsoDate.timeValue Scenario.dataXY
                            Scenario.planXY (200, ∅) mounted).1).
Proof.
  apply (rerun_gives_identical_series IsoDate.timeValue Scenario.dataXY
           Scenario.planXY (200, ∅) mounted).
  reflexivity.
Defined.

(** ** Data that was not retrieved *)

(** C6 (what the code does): with a payload whose status is not ["ok"] the
    error message is set, yet the run goes on, completes, sets the chart
    series and shows the chart. *)
Theorem error_status_still_charts :
  let run := updateChartV2 IsoDate.timeValue Scenario.dataXerror
               Scenario.planX (200, ∅) mounted in
  errMsg run.1 =
    "Sorry, but data could not be retrieved for every stock in your portfolio."
  ∧ run.2 = Normal ()
  ∧ chartSeries run.1 =
      Some [ Some {| name := "X"; type := "area";
                     data := [ {| x := Scenario.d1; y := "1000.00" |};
                               {| x := Scenario.d2; y := "1500.00" |} ] |};
             Some {| name := "Total"; type := "area";
                     data := [ {| x := Scenario.d1; y := "1000.00" |};
                               {| x := Scenario.d2; y := "1500.00" |} ] |} ]
  ∧ chartRendered run.1 = true.
Proof. vm_compute. repeat split. Qed.

Lemma buyShares_absent portfolio stockData l s (m : gmap string float) :
  s ∈ symbol <$> l → stockData !! s = None →
  ∃ e, forEach (buyShares portfolio stockData) l m = Throw e.
Proof.
  intros Hs Hnone. revert m.
  induction l as [|a l IH]; intros m; [by apply elem_of_nil in Hs|].
  rewrite fmap_cons in Hs.
  change (forEach (buyShares portfolio stockData) (a :: l) m)
    with (m' ← buyShares portfolio stockData m a;
          forEach (buyShares portfolio stockData) l m').
  destruct (decide (symbol a = s)) as [Heq|Hne].
  - unfold buyShares. rewrite Heq, Hnone. simpl. by eexists.
  - destruct (buyShares portfolio stockData m a) as [m'|e]; simpl.
    + apply IH. apply elem_of_cons in Hs as [Hs|Hs]; [congruence|done].
    + by exists e.
Qed.

(** With no payload at all for a symbol the message is set and the run ends
    in a [TypeError]; no series is set and the component stays loading. *)
Lemma absent_payload_throws timeValue sampleData portfolio response c s :
  rawStockData c = None →
  s ∈ stockSymbols portfolio →
  sampleData !! s = None →
  let run := updateChartV2 timeValue sampleData portfolio response c in
  (∃ e, run.2 = Throw e)
  ∧ errMsg run.1 =
      "Sorry, but data could not be retrieved for every stock in your portfolio."
  ∧ chartSeries run.1 = chartSeries c
  ∧ isLoading run.1 = true.
Proof.
  intros Hfresh Hs Hnone. simpl.
  rewrite (updateChartV2_run _ _ _ _ c Hfresh). simpl.
  rewrite ensureRetrieved_all.
  assert (anyMissing sampleData (stockSymbols portfolio) = true) as ->.
  { unfold anyMissing. apply existsb_exists. exists s.
    split; [by apply list_elem_of_In|]. by rewrite Hnone. }
  assert (∃ e, computeChart timeValue portfolio sampleData = Throw e) as [e He].
  { destruct (buyShares_absent portfolio sampleData (assets portfolio) s ∅ Hs Hnone)
      as [e He].
    exists e. unfold computeChart, sharesBought. by rewrite He. }
  rewrite He. simpl. split_and!; [by exists e|done|done|done].
Qed.

(** * Further properties of [updateChartV2] *)

(** ** The error message *)

Lemma errMsg_run timeValue sampleData portfolio response c :
  rawStockData c = None →
  errMsg (updateChartV2 timeValue sampleData portfolio response c).1 =
    if anyMissing sampleData (stockSymbols portfolio)
    then "Sorry, but data could not be retrieved for every stock in your portfolio."
    else errMsg c.
Proof.
  intros Hfresh. rewrite (updateChartV2_run _ _ _ _ c Hfresh). simpl.
  rewrite ensureRetrieved_all.
  destruct (computeChart timeValue portfolio sampleData);
    by destruct (anyMissing sampleData (stockSymbols portfolio)).
Qed.

(** X1: a run sets the error message when some symbol of the plan has no
    payload or one whose status is not ["ok"]; when every symbol's payload
    is ["ok"] the message is left as it was: an earlier message is never
    cleared. *)
Theorem error_message_set_and_never_cleared
    (timeValue : string → Z) (sampleData : gmap string payload)
    (portfolio : portfolio) (response : Z * gmap string payload)
    (c : component) :
  rawStockData c = None →
  let run := updateChartV2 timeValue sampleData portfolio response c in
  ((∃ s, s ∈ stockSymbols portfolio
         ∧ ∀ entry, sampleData !! s = Some entry → status entry ≠ "ok") →
   errMsg run.1 =
     "Sorry, but data could not be retrieved for every stock in your portfolio.")
  ∧ ((∀ s, s ∈ stockSymbols portfolio →
        ∃ entry, sampleData !! s = Some entry ∧ status entry = "ok") →
     errMsg run.1 = errMsg c).
Proof.
  intros Hfresh. simpl. rewrite errMsg_run by done. split.
  - intros (s & Hs & Hbad).
    assert (anyMissing sampleData (stockSymbols portfolio) = true) as ->; [|done].
    unfold anyMissing. apply existsb_exists. exists s.
    split; [by apply list_elem_of_In|].
    destruct (sampleData !! s) as [entry|]; [|done].
    by rewrite bool_decide_eq_false_2 by (by apply Hbad).
  - intros Hok.
    assert (anyMissing sampleData (stockSymbols portfolio) = false) as ->; [|done].
    unfold anyMissing. apply not_true_is_false. intros Hex.
    apply existsb_exists in Hex as (s & Hs & Hbad).
    apply list_elem_of_In in Hs. destruct (Hok s Hs) as (entry & He & Hst).
    rewrite He in Hbad. by rewrite bool_decide_eq_true_2 in Hbad.
Qed.

Lemma error_message_witness :
  let run := updateChartV2 IsoDate.timeValue Scenario.dataXY Scenario.planXY
               (200, ∅) Scenario2.failedBefore in
  ((∃ s, s ∈ stockSymbols Scenario.planXY
         ∧ ∀ entry, Scenario.dataXY !! s = Some entry → status entry ≠ "ok") →
   errMsg run.1 =
     "Sorry, but data could not be retrieved for every stock in your portfolio.")
  ∧ ((∀ s, s ∈ stockSymbols Scenario.planXY →
        ∃ entry, Scenario.dataXY !! s = Some entry ∧ status entry = "ok") →
     errMsg run.1 = errMsg Scenario2.failedBefore).
Proof.
  apply (error_message_set_and_never_cleared IsoDate.timeValue Scenario.dataXY
           Scenario.planXY (200, ∅) Scenario2.failedBefore).
  reflexivity.
Defined.

(** ** Completion *)

Lemma retrieved_iff stockData symbols :
  retrieved stockData symbols ↔ ∀ s, s ∈ symbols → daysOf stockData s ≠ [].
Proof.
  split.
  - intros Hr s Hs. by destruct (retrieved_daysOf _ _ _ Hr Hs) as (_ & _ & _ & Hne).
  - intros H s Hs. specialize (H s Hs). unfold daysOf in H.
    destruct (stockData !! s) as [entry|]; simpl in H; [|done].
    destruct (values entry) as [days|] eqn:Hv; simpl in H; [|done].
    by exists entry, days.
Qed.

Lemma buyShares_unretrieved portfolio stockData l s (m : gmap string float) :
  s ∈ symbol <$> l → daysOf stockData s = [] →
  ∃ e, forEach (buyShares portfolio stockData) l m = Throw e.
Proof.
  intros Hs Hnone. revert m.
  induction l as [|a l IH]; intros m; [by apply elem_of_nil in Hs|].
  rewrite fmap_cons in Hs.
  change (forEach (buyShares portfolio stockData) (a :: l) m)
    with (m' ← buyShares portfolio stockData m a;
          forEach (buyShares portfolio stockData) l m').
  destruct (decide (symbol a = s)) as [Heq|Hne].
  - unfold buyShares, daysOf in *. rewrite Heq.
    destruct (stockData !! s) as [entry|]; simpl in *; [|by eexists].
    destruct (values entry) as [days|]; simpl in *; [|by eexists].
    rewrite Hnone. simpl. by eexists.
  - destruct (buyShares portfolio stockData m a) as [m'|e]; simpl.
    + apply IH. apply elem_of_cons in Hs as [Hs|Hs]; [congruence|done].
    + by exists e.
Qed.

Lemma computeChart_unretrieved timeValue portfolio stockData s :
  s ∈ stockSymbols portfolio → daysOf stockData s = [] →
  ∃ e, computeChart timeValue portfolio stockData = Throw e.
Proof.
  intros Hs Hnone.
  destruct (buyShares_unretrieved portfolio stockData (assets portfolio) s ∅ Hs Hnone)
    as [e He].
  exists e. unfold computeChart, sharesBought. by rewrite He.
Qed.

(** X2: a run completes exactly when every symbol of the plan has a
    non-empty array of values.  Otherwise it ends in a [TypeError] with the
    component left loading: no chart series set, no chart shown.  When it
    completes the chart is shown and the data is cached. *)
Theorem completes_iff_every_symbol_has_values
    (timeValue : string → Z) (sampleData : gmap string payload)
    (portfolio : portfolio) (response : Z * gmap string payload)
    (c : component) :
  rawStockData c = None →
  let run := updateChartV2 timeValue sampleData portfolio response c in
  (run.2 = Normal () ↔ ∀ s, s ∈ stockSymbols portfolio → daysOf sampleData s ≠ [])
  ∧ (run.2 ≠ Normal () →
     (∃ e, run.2 = Throw e)
     ∧ isLoading run.1 = true
     ∧ chartSeries run.1 = chartSeries c
     ∧ chartLoaded run.1 = chartLoaded c
     ∧ chartRendered run.1 = false)
  ∧ (run.2 = Normal () →
     isLoading run.1 = false
     ∧ chartLoaded run.1 = true
     ∧ chartRendered run.1 = true
     ∧ rawStockData run.1 = Some sampleData).
Proof.
  intros Hfresh. simpl. rewrite (updateChartV2_run _ _ _ _ c Hfresh). simpl.
  rewrite ensureRetrieved_all.
  destruct (computeChart timeValue portfolio sampleData) as [result|e] eqn:Hrun;
    simpl.
  - split_and!.
    + split; [|done]. intros _ s Hs Hnone.
      destruct (computeChart_unretrieved timeValue _ _ s Hs Hnone) as [e He].
      congruence.
    + done.
    + intros _.
      by destruct (anyMissing sampleData (stockSymbols portfolio)).
  - split_and!.
    + split; [done|]. intros Hall. apply retrieved_iff in Hall.
      destruct (chart_spec timeValue _ _ Hall) as (? & ? & _ & _ & _ & _ & _ & ? & Hn & _).
      congruence.
    + intros _.
      destruct (anyMissing sampleData (stockSymbols portfolio));
        (split_and!; [by exists e|done|done|done|done]).
    + done.
Qed.

Lemma completes_iff_witness :
  let run := updateChartV2 IsoDate.timeValue Scenario2.dataEmptyX Scenario.planXY
               (200, ∅) mounted in
  (run.2 = Normal ()
   ↔ ∀ s, s ∈ stockSymbols Scenario.planXY → daysOf Scenario2.dataEmptyX s ≠ [])
  ∧ (run.2 ≠ Normal () →
     (∃ e, run.2 = Throw e)
     ∧ isLoading run.1 = true
     ∧ chartSeries run.1 = chartSeries mounted
     ∧ chartLoaded run.1 = chartLoaded mounted
     ∧ chartRendered run.1 = false)
  ∧ (run.2 = Normal () →
     isLoading run.1 = false
     ∧ chartLoaded run.1 = true
     ∧ chartRendered run.1 = true
     ∧ rawStockData run.1 = Some Scenario2.dataEmptyX).
Proof.
  apply (completes_iff_every_symbol_has_values IsoDate.timeValue
           Scenario2.dataEmptyX Scenario.planXY (200, ∅) mounted).
  reflexivity.
Defined.

(** An empty array of values is enough to end the run in a [TypeError]. *)
Example empty_values_throw :
  (updateChartV2 IsoDate.timeValue Scenario2.dataEmptyX Scenario.planXY
     (200, ∅) mounted).2 = Throw (TypeError "close").
Proof. evaluated. Qed.

(** ** A plan without assets *)

(** X3: with no assets in the plan the run completes whatever the data is:
    the chart has the single series Total, without points, the final total
    is 0 and no error message is set. *)
Theorem empty_plan_gives_empty_total_series
    (timeValue : string → Z) (sampleData : gmap string payload)
    (portfolio : portfolio) (response : Z * gmap string payload)
    (c : component) :
  rawStockData c = None →
  assets portfolio = [] →
  let run := updateChartV2 timeValue sampleData portfolio response c in
  run.2 = Normal ()
  ∧ chartSeries run.1 = Some [Some {| name := "Total"; type := "area"; data := [] |}]
  ∧ finalStockValues run.1 = []
  ∧ finalTotalValue run.1 = 0%float
  ∧ errMsg run.1 = errMsg c
  ∧ chartRendered run.1 = true.
Proof.
  intros Hfresh Hempty. simpl.
  rewrite (updateChartV2_run _ _ _ _ c Hfresh).
  unfold computeChart, sharesBought, recordValues, stockSymbols.
  rewrite Hempty. simpl. done.
Qed.

Lemma empty_plan_witness :
  let run := updateChartV2 IsoDate.timeValue Scenario.dataXY
               {| initial := 1000%float; startDate := ""; assets := [] |}
               (200, ∅) mounted in
  run.2 = Normal ()
  ∧ chartSeries run.1 = Some [Some {| name := "Total"; type := "area"; data := [] |}]
  ∧ finalStockValues run.1 = []
  ∧ finalTotalValue run.1 = 0%float
  ∧ errMsg run.1 = errMsg mounted
  ∧ chartRendered run.1 = true.
Proof.
  apply (empty_plan_gives_empty_total_series IsoDate.timeValue Scenario.dataXY
           {| initial := 1000%float; startDate := ""; assets := [] |}
           (200, ∅) mounted); reflexivity.
Defined.

(** ** The final values *)

Lemma totalOf_nil valueOf (symbols : list string) :
  totalOf valueOf symbols [] = 0%float.
Proof.
  unfold totalOf. induction symbols as [|s symbols IH]; [done|].
  simpl. exact IH.
Qed.

Lemma emitted_total_last valueOf symbols (visited dates : list string) :
  last (emittedFrom valueOf symbols "Total" visited dates) =
    (λ d, {| x := d;
             y := Number.toFixed2 (totalOf valueOf symbols (visited ++ dates)) |})
      <$> last dates.
Proof.
  destruct dates as [|d dates] using rev_ind; [done|].
  rewrite emittedFrom_snoc. unfold totalPoints.
  rewrite decide_True by done.
  by rewrite !app_assoc, !last_snoc.
Qed.

(** X4: after a completed run the final total is the sum of the final stock
    values and is the value the last point of the Total series shows; the
    final value of each symbol is the value of its quote at its latest
    date. *)
Theorem final_values_are_the_latest
    (timeValue : string → Z) (sampleData : gmap string payload)
    (portfolio : portfolio) (response : Z * gmap string payload)
    (c : component) :
  rawStockData c = None →
  retrieved sampleData (stockSymbols portfolio) →
  ∃ result shares total,
    computeChart timeValue portfolio sampleData = Normal result
    ∧ sharesBought portfolio sampleData = Normal shares
    ∧ newChartSeries (final result) !! "Total" = Some total
    ∧ let run := updateChartV2 timeValue sampleData portfolio response c in
      finalTotalValue run.1 =
        foldl (λ sum sv, (sum + Number.ofProperty (sv_value sv))%float) 0%float
              (finalStockValues run.1)
      ∧ last (data total) =
          (λ d, {| x := d; y := Number.toFixed2 (finalTotalValue run.1) |})
            <$> last (datesSorted result)
      ∧ sv_symbol <$> finalStockValues run.1 = stockSymbols portfolio
      ∧ ∀ sv, sv ∈ finalStockValues run.1 →
          ∃ d v, sv_value sv = Some v
                 ∧ valueOn shares sampleData (sv_symbol sv) d = Some v
                 ∧ ∀ d', is_Some (quoteOn sampleData (sv_symbol sv) d') →
                         timeValue d' ≤ timeValue d.
Proof.
  intros Hfresh Hr.
  destruct (chart_spec timeValue _ _ Hr)
    as (shares & allDates & Hshares & _ & _ & Hin & _ & w & Hrun & Hcv & Hncs & Hpv).
  set (dates := sortDates timeValue allDates) in *.
  set (V := valueOn shares sampleData) in *.
  assert (portfolioValue w = totalOf V (stockSymbols portfolio) dates) as Htotal.
  { rewrite Hpv. destruct dates; [|done]. by rewrite totalOf_nil. }
  eexists _, shares, _. split_and!.
  - exact Hrun.
  - done.
  - simpl. apply Hncs, elem_of_snoc.
  - simpl. rewrite (updateChartV2_run _ _ _ _ c Hfresh), Hrun. simpl.
    split_and!.
    + rewrite foldl_fmap. simpl. rewrite Htotal. symmetry.
      by apply sumValues_totalOf.
    + rewrite Htotal. apply emitted_total_last.
    + rewrite <- list_fmap_compose. apply list_fmap_id.
    + intros sv Hsv. apply list_elem_of_fmap in Hsv as (s & -> & Hs). simpl.
      rewrite (Hcv s Hs).
      assert (∀ d', is_Some (quoteOn sampleData s d') →
                d' ∈ dates ∧ is_Some (V s d')) as Hquoted.
      { intros d' Hd'. split; [|by apply valueOn_is_Some].
        apply sortDates_elem_of, Hin. by apply (quoteOn_union _ _ s). }
      pose proof (sortDates_sorted timeValue allDates) as Hsorted.
      fold dates in Hsorted.
      destruct (lastKnown_cases (V s) dates)
        as [[Hno _]|(pre & d & v & post & Hdates & Hd & Hpost & _ & Hlast)].
      * exfalso.
        destruct (retrieved_daysOf _ _ _ Hr Hs) as (_ & _ & _ & Hne).
        destruct (daysOf sampleData s) as [|q days] eqn:Hdays; [done|].
        destruct (Hquoted (datetime q)) as [Hd [v Hv]].
        { apply quoteOn_is_Some. rewrite Hdays. by left. }
        rewrite (Hno _ Hd) in Hv. done.
      * exists d, v. split_and!; [by rewrite Hlast|done|].
        intros d' Hd'. destruct (Hquoted d' Hd') as [Hin' [v' Hv']].
        rewrite Hdates in Hin', Hsorted.
        apply elem_of_app in Hin' as [Hin'|Hin'].
        -- apply (StronglySorted_app_1_elem_of _ _ _ d' d Hsorted Hin'). by left.
        -- apply elem_of_cons in Hin' as [->|Hin']; [lia|].
           rewrite (Hpost _ Hin') in Hv'. done.
Qed.

Lemma final_values_witness :
  ∃ result shares total,
    computeChart IsoDate.timeValue Scenario.planXY Scenario.dataXY = Normal result
    ∧ sharesBought Scenario.planXY Scenario.dataXY = Normal shares
    ∧ newChartSeries (final result) !! "Total" = Some total
    ∧ let run := updateChartV2 IsoDate.timeValue Scenario.dataXY Scenario.planXY
                   (200, ∅) mounted in
      finalTotalValue run.1 =
        foldl (λ sum sv, (sum + Number.ofProperty (sv_value sv))%float) 0%float
              (finalStockValues run.1)
      ∧ last (data total) =
          (λ d, {| x := d; y := Number.toFixed2 (finalTotalValue run.1) |})
            <$> last (datesSorted result)
      ∧ sv_symbol <$> finalStockValues run.1 = stockSymbols Scenario.planXY
      ∧ ∀ sv, sv ∈ finalStockValues run.1 →
          ∃ d v, sv_value sv = Some v
                 ∧ valueOn shares Scenario.dataXY (sv_symbol sv) d = Some v
                 ∧ ∀ d', is_Some (quoteOn Scenario.dataXY (sv_symbol sv) d') →
                         IsoDate.timeValue d' ≤ IsoDate.timeValue d.
Proof.
  apply (final_values_are_the_latest IsoDate.timeValue Scenario.dataXY
           Scenario.planXY (200, ∅) mounted).
  - reflexivity.
  - apply retrievedb_retrieved. evaluated.
Defined.

(** The final values of the two-symbol scenario: Y ends with its carried
    value. *)
Example final_values_scenario :
  let run := updateChartV2 IsoDate.timeValue Scenario.dataXY Scenario.planXY
               (200, ∅) mounted in
  finalTotalValue run.1 = 300%float
  ∧ finalStockValues run.1 =
      [ {| sv_symbol := "X"; sv_value := Some 200%float |};
        {| sv_symbol := "Y"; sv_value := Some 100%float |} ].
Proof. split; evaluated. Qed.

(** ** A symbol listed twice *)

(** X5: when several assets of the plan list the same symbol, the share
    count of the symbol is that of the last of them: the portions of the
    earlier ones buy nothing. *)
Theorem last_listing_of_a_symbol_sets_its_shares
    (portfolio : portfolio) (stockData : gmap string payload)
    (earlier : list asset) (a : asset) (later : list asset) (q : tradingDay) :
  retrieved stockData (stockSymbols portfolio) →
  assets portfolio = earlier ++ a :: later →
  (∀ b, b ∈ later → symbol b ≠ symbol a) →
  last (daysOf stockData (symbol a)) = Some q →
  ∃ shares,
    sharesBought portfolio stockData = Normal shares
    ∧ shares !! symbol a = Some (portion a * initial portfolio / close q)%float.
Proof.
  intros Hr Hassets Hlater Hlast.
  destruct (sharesBought_spec _ _ Hr) as (shares & Hrun & Hlook).
  exists shares. split; [done|]. rewrite Hlook, Hassets.
  rewrite filter_app, filter_cons, decide_True by done.
  rewrite (filter_none _ later) by (intros b Hb; by apply Hlater).
  rewrite last_snoc. simpl. unfold purchase. by rewrite Hlast.
Qed.

Lemma last_listing_witness :
  ∃ shares,
    sharesBought Scenario2.planTwice Scenario.dataX = Normal shares
    ∧ shares !! "X" = Some (0.75 * 1000 / 100)%float.
Proof.
  apply (last_listing_of_a_symbol_sets_its_shares Scenario2.planTwice Scenario.dataX
           [Scenario.holding "X" 0.25%float] (Scenario.holding "X" 0.75%float) []
           (Scenario.day Scenario.d1 100%float)).
  - apply retrievedb_retrieved. evaluated.
  - reflexivity.
  - intros b Hb. by apply elem_of_nil in Hb.
  - reflexivity.
Defined.

(** ** A symbol named Total *)

Lemma emitted_Total_dates valueOf (symbols : list string) (visited dates : list string) :
  NoDup symbols → "Total" ∈ symbols →
  x <$> emittedFrom valueOf symbols "Total" visited dates =
    dates ≫= (λ d, if decide (is_Some (valueOf "Total" d)) then [d; d] else [d]).
Proof.
  intros Hnd Hin. revert visited.
  induction dates as [|d dates IH]; intros visited; [done|].
  rewrite emittedFrom_cons, !fmap_app, IH.
  rewrite symbolPoints_unique by done. unfold totalPoints.
  rewrite decide_True by done.
  change ((d :: dates) ≫= _) with
    ((if decide (is_Some (valueOf "Total" d)) then [d; d] else [d])
       ++ (dates ≫= λ d0, if decide (is_Some (valueOf "Total" d0))
                          then [d0; d0] else [d0])).
  by destruct (valueOf "Total" d) as [v|].
Qed.

(** X6: a symbol named Total shares its series object with the total: the
    chart then holds the same series twice, and that series has two points
    at every date on which the symbol has a quote, its own and the
    total's. *)
Theorem symbol_named_Total_shares_the_total_series
    (timeValue : string → Z) (sampleData : gmap string payload)
    (portfolio : portfolio) (response : Z * gmap string payload)
    (c : component) (i : nat) :
  rawStockData c = None →
  retrieved sampleData (stockSymbols portfolio) →
  NoDup (stockSymbols portfolio) →
  stockSymbols portfolio !! i = Some "Total" →
  ∃ result out sr,
    computeChart timeValue portfolio sampleData = Normal result
    ∧ chartSeries (updateChartV2 timeValue sampleData portfolio response c).1
        = Some out
    ∧ out !! i = Some (Some sr)
    ∧ out !! length (stockSymbols portfolio) = Some (Some sr)
    ∧ x <$> data sr =
        datesSorted result
          ≫= (λ d, if decide (is_Some (quoteOn sampleData "Total" d))
                   then [d; d] else [d]).
Proof.
  intros Hfresh Hr Hnd Hi.
  destruct (chartSeries_spec timeValue _ _ response c Hfresh Hr)
    as (shares & allDates & w & _ & _ & _ & _ & _ & Hrun & _ & Hout).
  assert ("Total" ∈ stockSymbols portfolio) as Hin.
  { apply list_elem_of_lookup. by exists i. }
  eexists _, _, _. split_and!.
  - exact Hrun.
  - exact Hout.
  - rewrite list_lookup_fmap. unfold seriesNames.
    rewrite lookup_app_l by (by apply lookup_lt_Some in Hi). by rewrite Hi.
  - rewrite list_lookup_fmap. unfold seriesNames.
    by rewrite list_lookup_middle.
  - simpl. rewrite emitted_Total_dates by done.
    apply list_bind_ext; [|done]. intros d.
    apply decide_ext. apply valueOn_is_Some.
Qed.

Lemma symbol_named_Total_witness :
  ∃ result out sr,
    computeChart IsoDate.timeValue Scenario2.planTotal Scenario2.dataTotal
      = Normal result
    ∧ chartSeries (updateChartV2 IsoDate.timeValue Scenario2.dataTotal
                     Scenario2.planTotal (200, ∅) mounted).1 = Some out
    ∧ out !! 0%nat = Some (Some sr)
    ∧ out !! length (stockSymbols Scenario2.planTotal) = Some (Some sr)
    ∧ x <$> data sr =
        datesSorted result
          ≫= (λ d, if decide (is_Some (quoteOn Scenario2.dataTotal "Total" d))
                   then [d; d] else [d]).
Proof.
  apply (symbol_named_Total_shares_the_total_series IsoDate.timeValue
           Scenario2.dataTotal Scenario2.planTotal (200, ∅) mounted 0).
  - reflexivity.
  - apply retrievedb_retrieved. evaluated.
  - decided.
  - reflexivity.
Defined.

(** ** A date listed twice *)

Lemma filter_omap_unique {A} (f : string → option A) (key : A → string)
    (l : list string) (d : string) (a : A) :
  NoDup l → d ∈ l → f d = Some a →
  (∀ d' a', f d' = Some a' → key a' = d') →
  filter (λ a', key a' = d) (omap f l) = [a].
Proof.
  intros Hnd Hd Hf Hkey.
  induction l as [|d' l IH]; [by apply elem_of_nil in Hd|].
  apply NoDup_cons in Hnd as [Hd' Hnd]. csimpl.
  apply elem_of_cons in Hd as [<-|Hd].
  - rewrite Hf. rewrite filter_cons, decide_True by (by apply Hkey).
    f_equal. apply filter_none. intros a' Ha' Hk.
    apply list_elem_of_omap in Ha' as (d2 & Hd2 & Hf2).
    apply Hkey in Hf2. congruence.
  - destruct (f d') as [a'|] eqn:Hf'; [|by apply IH].
    rewrite filter_cons, decide_False; [by apply IH|].
    rewrite (Hkey _ _ Hf'). congruence.
Qed.

(** X7: in a plan with unique symbols, when the values of a symbol that
    is not named Total list a date more than once, the symbol's series has a
    single point at that date, and it shows the record listed last. *)
Theorem repeated_date_shows_the_record_listed_last
    (timeValue : string → Z) (sampleData : gmap string payload)
    (portfolio : portfolio) (response : Z * gmap string payload)
    (c : component) (i : nat) (s : string)
    (listedBefore : list tradingDay) (q : tradingDay)
    (listedAfter : list tradingDay) :
  rawStockData c = None →
  retrieved sampleData (stockSymbols portfolio) →
  NoDup (stockSymbols portfolio) →
  stockSymbols portfolio !! i = Some s →
  s ≠ "Total" →
  daysOf sampleData s = listedBefore ++ q :: listedAfter →
  (∀ q', q' ∈ listedAfter → datetime q' ≠ datetime q) →
  ∃ shares out sr,
    sharesBought portfolio sampleData = Normal shares
    ∧ chartSeries (updateChartV2 timeValue sampleData portfolio response c).1
        = Some out
    ∧ out !! i = Some (Some sr)
    ∧ filter (λ pt, x pt = datetime q) (data sr) =
        [ {| x := datetime q;
             y := Number.toFixed2
                    (Number.ofProperty (shares !! s) * close q)%float |} ].
Proof.
  intros Hfresh Hr Hnd Hi Hne Hdays Hafter.
  destruct (chartSeries_spec timeValue _ _ response c Hfresh Hr)
    as (shares & allDates & w & Hshares & _ & Hnd' & Hin & _ & _ & _ & Hout).
  assert (s ∈ stockSymbols portfolio) as Hs.
  { apply list_elem_of_lookup. by exists i. }
  assert (quoteOn sampleData s (datetime q) = Some q) as Hq.
  { unfold quoteOn. rewrite Hdays, filter_app, filter_cons, decide_True by done.
    rewrite (filter_none _ listedAfter) by (intros q' Hq'; by apply Hafter).
    by rewrite last_snoc. }
  eexists shares, _, _. split_and!.
  - done.
  - exact Hout.
  - rewrite list_lookup_fmap. unfold seriesNames.
    rewrite lookup_app_l by (by apply lookup_lt_Some in Hi). by rewrite Hi.
  - simpl. rewrite emitted_symbol by done.
    apply filter_omap_unique.
    + by apply sortDates_NoDup.
    + apply sortDates_elem_of, Hin. apply (quoteOn_union _ _ s); [done|].
      by rewrite Hq.
    + unfold valueOn. by rewrite Hq.
    + intros d' pt Hpt.
      destruct (valueOn shares sampleData s d'); [|done].
      simpl in Hpt. by injection Hpt as <-.
Qed.

Lemma repeated_date_witness :
  ∃ shares out sr,
    sharesBought Scenario.planX Scenario2.dataRepeated = Normal shares
    ∧ chartSeries (updateChartV2 IsoDate.timeValue Scenario2.dataRepeated
                     Scenario.planX (200, ∅) mounted).1 = Some out
    ∧ out !! 0%nat = Some (Some sr)
    ∧ filter (λ pt, x pt = datetime (Scenario.day Scenario.d2 120%float)) (data sr) =
        [ {| x := datetime (Scenario.day Scenario.d2 120%float);
             y := Number.toFixed2
                    (Number.ofProperty (shares !! "X")
                     * close (Scenario.day Scenario.d2 120%float))%float |} ].
Proof.
  apply (repeated_date_shows_the_record_listed_last IsoDate.timeValue
           Scenario2.dataRepeated Scenario.planX (200, ∅) mounted 0 "X"
           [Scenario.day Scenario.d2 150%float]
           (Scenario.day Scenario.d2 120%float)
           [Scenario.day Scenario.d1 100%float]).
  - reflexivity.
  - apply retrievedb_retrieved. evaluated.
  - decided.
  - reflexivity.
  - discriminate.
  - evaluated.
  - intros q' Hq'. apply list_elem_of_singleton in Hq' as ->. discriminate.
Defined.
(** * The date strings *)

Lemma length_append (a b : string) :
  String.length (a +:+ b) = (String.length a + String.length b)%nat.
Proof. induction a as [|c a IH]; simpl; [done|]. by rewrite IH. Qed.

Lemma digitsOf_length (width : nat) (n : Z) :
  String.length (digitsOf width n) = width.
Proof.
  revert n. induction width as [|width IH]; intros n; [done|].
  simpl. rewrite length_append, IH. simpl. lia.
Qed.

(** Padded to [width], the decimal of a number below [bound] is the number
    written on [width] digits. *)
Lemma padded_digits (width : nat) (bound n : Z) :
  forallb (λ k, String.eqb (padStart (integerToString (Z.of_nat k)) width)
                           (digitsOf width (Z.of_nat k)))
          (seq 0 (Z.to_nat bound)) = true →
  0 ≤ n < bound →
  padStart (integerToString n) width = digitsOf width n.
Proof.
  intros Hall Hn. rewrite forallb_forall in Hall.
  specialize (Hall (Z.to_nat n)). rewrite Z2Nat.id in Hall by lia.
  apply String.eqb_eq, Hall, in_seq. lia.
Qed.

(** X8: for a date of the years 0 to 9999, [formatDateStr] gives ten
    characters: the year written on four decimal digits, a dash, the result
    of [getUTCMonth] on two digits, a dash, the day of the month on two
    digits.  The month it writes is the zero-based one, one less than the
    calendar month (00 for January); [marketstackDateString] gives the same
    string. *)
Theorem formatDateStr_writes_the_zero_based_month (date : utcDate) :
  0 ≤ getUTCFullYear date ≤ 9999 →
  0 ≤ getUTCMonth date ≤ 11 →
  1 ≤ getUTCDate date ≤ 31 →
  formatDateStr date =
    digitsOf 4 (getUTCFullYear date)
      +:+ "-" +:+ digitsOf 2 (getUTCMonth date)
      +:+ "-" +:+ digitsOf 2 (getUTCDate date)
  ∧ String.length (formatDateStr date) = 10%nat
  ∧ Marketstack.marketstackDateString date = formatDateStr date.
Proof.
  intros Hy Hm Hd.
  assert (formatDateStr date =
            digitsOf 4 (getUTCFullYear date)
              +:+ "-" +:+ digitsOf 2 (getUTCMonth date)
              +:+ "-" +:+ digitsOf 2 (getUTCDate date)) as Hshape.
  { unfold formatDateStr. cbv zeta.
    rewrite (padded_digits 4 10000 (getUTCFullYear date)) by (evaluated || lia).
    rewrite (padded_digits 2 12 (getUTCMonth date)) by (evaluated || lia).
    by rewrite (padded_digits 2 32 (getUTCDate date)) by (evaluated || lia). }
  split_and!; [done| |done].
  rewrite Hshape, !length_append, !digitsOf_length. reflexivity.
Qed.

Lemma formatDateStr_witness :
  formatDateStr Scenario2.march20 =
    digitsOf 4 2013 +:+ "-" +:+ digitsOf 2 2 +:+ "-" +:+ digitsOf 2 20
  ∧ String.length (formatDateStr Scenario2.march20) = 10%nat
  ∧ Marketstack.marketstackDateString Scenario2.march20
    = formatDateStr Scenario2.march20.
Proof.
  apply (formatDateStr_writes_the_zero_based_month Scenario2.march20);
    simpl; lia.
Defined.

(** The start date of the sample portfolio, 20 March 2013, is written as a
    day of February. *)
Example formatDateStr_march :
  formatDateStr Scenario2.march20 = "2013-02-20"
  ∧ digitsOf 4 2013 = "2013" ∧ digitsOf 2 2 = "02" ∧ digitsOf 2 20 = "20".
Proof. split_and!; evaluated. Qed.

(** * The Marketstack variant *)

Import Marketstack.

(** ** The running total *)

Lemma addToTotal_new (totalValue : list dated) (date : string) (v : float) :
  (∀ latest, last totalValue = Some latest → dated_date latest ≠ date) →
  addToTotal totalValue date v =
    totalValue ++ [{| dated_date := date; dated_value := (0 + v)%float |}].
Proof.
  intros Hnew. unfold addToTotal.
  assert (match last totalValue with
          | Some latest =>
              if decide (dated_date latest = date) then totalValue
              else totalValue ++ [{| dated_date := date; dated_value := 0%float |}]
          | None => totalValue ++ [{| dated_date := date; dated_value := 0%float |}]
          end = totalValue ++ [{| dated_date := date; dated_value := 0%float |}])
    as ->.
  { destruct (last totalValue) as [latest|]; [|done].
    by rewrite decide_False by (by apply Hnew). }
  rewrite length_app. simpl.
  replace (length totalValue + 1 - 1)%nat with (length totalValue + 0)%nat by lia.
  by rewrite alter_app_r.
Qed.

Lemma addToTotal_same (earlier : list dated) (date : string) (u v : float) :
  addToTotal (earlier ++ [{| dated_date := date; dated_value := u |}]) date v =
    earlier ++ [{| dated_date := date; dated_value := (u + v)%float |}].
Proof.
  unfold addToTotal. rewrite last_snoc. simpl.
  rewrite decide_True by done. rewrite length_app. simpl.
  replace (length earlier + 1 - 1)%nat with (length earlier + 0)%nat by lia.
  by rewrite alter_app_r.
Qed.

(** Every update leaves a non-empty total whose last entry has the date of
    the record, and never touches an entry before the last. *)
Lemma addToTotal_cases (totalValue : list dated) (date : string) (v : float) :
  (∃ earlier u, totalValue = earlier ++ [{| dated_date := date; dated_value := u |}]
                ∧ addToTotal totalValue date v =
                    earlier ++ [{| dated_date := date; dated_value := (u + v)%float |}])
  ∨ ((∀ latest, last totalValue = Some latest → dated_date latest ≠ date)
     ∧ addToTotal totalValue date v =
         totalValue ++ [{| dated_date := date; dated_value := (0 + v)%float |}]).
Proof.
  destruct (last totalValue) as [[date' u]|] eqn:Hlast.
  - destruct (decide (date' = date)) as [->|Hne].
    + left. apply last_Some in Hlast as [earlier ->].
      exists earlier, u. split; [done|]. apply addToTotal_same.
    + right. split; [|apply addToTotal_new; rewrite Hlast];
        by intros latest' [= <-].
  - right. split; [|apply addToTotal_new; rewrite Hlast]; by intros latest' [=].
Qed.

Section Totals.

Variable worthOf : datum → float.

Lemma squeeze_cons_cons (a b : string) (l : list string) :
  squeeze (a :: b :: l) = if decide (a = b) then squeeze (b :: l)
                          else a :: squeeze (b :: l).
Proof. reflexivity. Qed.

Lemma squeeze_last (l : list string) : last (squeeze l) = last l.
Proof.
  induction l as [|a [|b l] IH]; [done|done|].
  rewrite squeeze_cons_cons. destruct (decide (a = b)) as [->|Hne].
  - by rewrite IH.
  - by rewrite (last_cons a (squeeze (b :: l))), IH, (last_cons a (b :: l)).
Qed.

Lemma squeeze_snoc (l : list string) (a : string) :
  squeeze (l ++ [a]) = if decide (last l = Some a) then squeeze l
                       else squeeze l ++ [a].
Proof.
  induction l as [|b [|b' l] IH].
  - by rewrite decide_False.
  - change (squeeze ([b] ++ [a])) with (if decide (b = a) then [a] else [b; a]).
    change (last [b]) with (Some b).
    destruct (decide (b = a)) as [->|Hne].
    + by rewrite decide_True.
    + rewrite decide_False; [done|]. by intros [= ->].
  - change ((b :: b' :: l) ++ [a]) with (b :: b' :: (l ++ [a])).
    rewrite !squeeze_cons_cons.
    change (b' :: l ++ [a]) with ((b' :: l) ++ [a]). rewrite IH.
    change (last (b :: b' :: l)) with (last (b' :: l)).
    destruct (decide (b = b')), (decide (last (b' :: l) = Some a)); done.
Qed.

Lemma totalsFrom_cons (start : list dated) (r : datum) (l : list datum) :
  totalsFrom worthOf start (r :: l) =
    totalsFrom worthOf (addToTotal start (datum_date r) (worthOf r)) l.
Proof. reflexivity. Qed.

Lemma totalsFrom_app (start : list dated) (l l' : list datum) :
  totalsFrom worthOf start (l ++ l') =
    totalsFrom worthOf (totalsFrom worthOf start l) l'.
Proof. unfold totalsFrom. by rewrite foldl_app. Qed.

Lemma totalsFrom_snoc (start : list dated) (l : list datum) (r : datum) :
  totalsFrom worthOf start (l ++ [r]) =
    addToTotal (totalsFrom worthOf start l) (datum_date r) (worthOf r).
Proof. unfold totalsFrom. by rewrite foldl_snoc. Qed.

Lemma totalsFrom_dates (l : list datum) :
  dated_date <$> totalsFrom worthOf [] l = squeeze (datum_date <$> l).
Proof.
  induction l as [|r l IH] using rev_ind; [done|].
  rewrite totalsFrom_snoc, fmap_app.
  change (datum_date <$> [r]) with [datum_date r]. rewrite squeeze_snoc.
  rewrite <- squeeze_last, <- IH, fmap_last.
  destruct (addToTotal_cases (totalsFrom worthOf [] l) (datum_date r) (worthOf r))
    as [(earlier & u & Hshape & ->)|[Hnew ->]].
  - rewrite Hshape, last_snoc. simpl. rewrite decide_True by done.
    by rewrite !fmap_app.
  - rewrite decide_False; [by rewrite fmap_app|].
    destruct (last (totalsFrom worthOf [] l)) as [latest|] eqn:Hlast; [|done].
    simpl. intros [= Heq]. by apply (Hnew latest).
Qed.

Lemma totalsFrom_last_None (l : list datum) :
  last (totalsFrom worthOf [] l) = None ↔ l = [].
Proof.
  split; [|by intros ->].
  intros Hlast. destruct l as [|r l] using rev_ind; [done|].
  rewrite totalsFrom_snoc in Hlast.
  destruct (addToTotal_cases (totalsFrom worthOf [] l) (datum_date r) (worthOf r))
    as [(earlier & u & _ & Heq)|[_ Heq]];
    rewrite Heq, last_snoc in Hlast; done.
Qed.

(** Entries before the last are final. *)
Lemma totalsFrom_keeps (l : list datum) (earlier : list dated) (latest : dated) :
  ∃ more, totalsFrom worthOf (earlier ++ [latest]) l = earlier ++ more.
Proof.
  revert earlier latest. induction l as [|r l IH]; intros earlier latest.
  { by exists [latest]. }
  rewrite totalsFrom_cons.
  destruct (addToTotal_cases (earlier ++ [latest]) (datum_date r) (worthOf r))
    as [(earlier' & u & Hshape & ->)|[_ ->]].
  - apply app_inj_tail in Hshape as [<- _]. apply IH.
  - destruct (IH (earlier ++ [latest])
                 {| dated_date := datum_date r; dated_value := (0 + worthOf r)%float |})
      as [more Hmore].
    exists ([latest] ++ more). rewrite Hmore.
    by rewrite <- app_assoc.
Qed.

(** A run of records of one date adds one entry: the sum of their worths. *)
Lemma totalsFrom_run (start : list dated) (run : list datum) (date : string) :
  run ≠ [] →
  (∀ r, r ∈ run → datum_date r = date) →
  (∀ latest, last start = Some latest → dated_date latest ≠ date) →
  totalsFrom worthOf start run =
    start ++ [{| dated_date := date;
                 dated_value := sumOf worthOf run |}].
Proof.
  intros Hne Hdate Hnew. destruct run as [|r run]; [done|].
  rewrite totalsFrom_cons.
  rewrite (Hdate r) by (by left). rewrite addToTotal_new by done.
  assert (∀ r', r' ∈ run → datum_date r' = date) as Hrest.
  { intros r' Hr'. apply Hdate. by right. }
  clear Hdate Hne. unfold sumOf. simpl. generalize (0 + worthOf r)%float as u.
  induction run as [|r' run IH]; intros u; [done|].
  rewrite totalsFrom_cons.
  rewrite (Hrest r') by (by left). rewrite addToTotal_same.
  apply IH. intros r'' Hr''. apply Hrest. by right.
Qed.

(** The entry of a run of one date, at its place among the dates. *)
Lemma totals_of_a_run (before run after : list datum) (date : string) :
  run ≠ [] →
  (∀ r, r ∈ run → datum_date r = date) →
  (∀ r, last before = Some r → datum_date r ≠ date) →
  (∀ r, head after = Some r → datum_date r ≠ date) →
  totalsFrom worthOf [] (before ++ run ++ after)
    !! length (squeeze (datum_date <$> before)) =
    Some {| dated_date := date;
            dated_value := sumOf worthOf run |}.
Proof.
  intros Hne Hdate Hbefore Hafter.
  assert (length (squeeze (datum_date <$> before)) = length (totalsFrom worthOf [] before))
    as ->.
  { by rewrite <- totalsFrom_dates, length_fmap. }
  rewrite !totalsFrom_app.
  rewrite (totalsFrom_run _ _ date Hne Hdate).
  - destruct after as [|r after].
    + by apply list_lookup_middle.
    + rewrite totalsFrom_cons, addToTotal_new.
      * destruct (totalsFrom_keeps after
                    (totalsFrom worthOf [] before ++
                       [{| dated_date := date;
                           dated_value :=
                             sumOf worthOf run |}])
                    {| dated_date := datum_date r;
                       dated_value := (0 + worthOf r)%float |}) as [more Hmore].
        rewrite Hmore, <- app_assoc. by apply list_lookup_middle.
      * intros latest. rewrite last_snoc. intros [= <-]. simpl.
        intros Heq. by apply (Hafter r).
  - intros latest Hlatest.
    assert (last (dated_date <$> totalsFrom worthOf [] before) = Some (dated_date latest))
      as Hl by (by rewrite fmap_last, Hlatest).
    rewrite totalsFrom_dates, squeeze_last, fmap_last in Hl.
    destruct (last before) as [r|] eqn:Hr; [|done].
    simpl in Hl. injection Hl as <-. by apply Hbefore.
Qed.

(** The last entry is that of the last run. *)
Lemma totals_last_run (before run : list datum) (date : string) :
  run ≠ [] →
  (∀ r, r ∈ run → datum_date r = date) →
  (∀ r, last before = Some r → datum_date r ≠ date) →
  last (totalsFrom worthOf [] (before ++ run)) =
    Some {| dated_date := date; dated_value := sumOf worthOf run |}.
Proof.
  intros Hne Hdate Hbefore.
  pose proof (totals_of_a_run before run [] date Hne Hdate Hbefore) as Hrun.
  rewrite app_nil_r in Hrun. specialize (Hrun ltac:(done)).
  rewrite last_lookup. rewrite <- Hrun. f_equal.
  assert (length (squeeze (datum_date <$> before))
          = length (totalsFrom worthOf [] before)) as ->.
  { by rewrite <- totalsFrom_dates, length_fmap. }
  rewrite totalsFrom_app, (totalsFrom_run _ _ date Hne Hdate).
  - rewrite length_app. simpl. lia.
  - intros latest Hlatest.
    assert (last (dated_date <$> totalsFrom worthOf [] before)
            = Some (dated_date latest)) as Hl by (by rewrite fmap_last, Hlatest).
    rewrite totalsFrom_dates, squeeze_last, fmap_last in Hl.
    destruct (last before) as [r|] eqn:Hr; [|done].
    simpl in Hl. injection Hl as <-. by apply Hbefore.
Qed.

End Totals.

(** ** The loop over the data *)

Lemma initialValuesOf_lookup (p : portfolio) (s : string) :
  initialValuesOf p !! s = invested p s.
Proof.
  unfold initialValuesOf, invested.
  induction (assets p) as [|a l IH] using rev_ind; [done|].
  rewrite foldl_snoc, last_filter_snoc.
  destruct (decide (symbol a = s)) as [->|Hne].
  - by rewrite lookup_insert_eq.
  - by rewrite lookup_insert_ne.
Qed.

Lemma recordsOf_snoc (pre : list datum) (a : datum) (s : string) :
  recordsOf (pre ++ [a]) s =
    if decide (datum_symbol a = s) then recordsOf pre s ++ [a] else recordsOf pre s.
Proof.
  unfold recordsOf. rewrite filter_app, filter_cons, filter_nil.
  destruct (decide (datum_symbol a = s)); [done | by rewrite app_nil_r].
Qed.

Lemma recordsOf_elem (d : list datum) (r : datum) :
  r ∈ d → r ∈ recordsOf d (datum_symbol r).
Proof. intros Hr. by apply list_elem_of_filter. Qed.

Lemma head_snoc {A} (l : list A) (a : A) :
  head (l ++ [a]) = Some (default a (head l)).
Proof. by destruct l. Qed.

Lemma head_recordsOf_snoc (pre : list datum) (a : datum) (s : string) :
  is_Some (head (recordsOf pre s)) →
  head (recordsOf (pre ++ [a]) s) = head (recordsOf pre s).
Proof.
  intros [r Hr]. rewrite recordsOf_snoc.
  destruct (decide (datum_symbol a = s)); [|done].
  by rewrite head_snoc, Hr.
Qed.

Section Tally.

Variable closingPriceOf : datum → float.
Variable p : portfolio.

Lemma worth_snoc (pre : list datum) (a r : datum) :
  r ∈ pre → worth closingPriceOf p (pre ++ [a]) r = worth closingPriceOf p pre r.
Proof.
  intros Hr. unfold worth. rewrite head_recordsOf_snoc; [done|].
  apply recordsOf_elem in Hr.
  destruct (recordsOf pre (datum_symbol r)) as [|r' l]; [|by eexists].
  by apply elem_of_nil in Hr.
Qed.

Lemma totalsFrom_ext (w w' : datum → float) (start : list dated) (l : list datum) :
  (∀ r, r ∈ l → w r = w' r) → totalsFrom w start l = totalsFrom w' start l.
Proof.
  revert start. induction l as [|r l IH]; intros start Hw; [done|].
  rewrite !totalsFrom_cons, (Hw r) by (by left).
  apply IH. intros r' Hr'. apply Hw. by right.
Qed.

Lemma tallied_start :
  tallied closingPriceOf p [] {| valueData := mapOfSymbols [] (stockSymbols p);
                totalValue := []; initialPrices := ∅ |}.
Proof.
  split_and!; simpl.
  - intros s. apply mapOfSymbols_lookup.
  - done.
  - intros s. apply lookup_empty.
Qed.

Lemma recordDatum_stranger (t : tally) (pre : list datum) (a : datum) :
  tallied closingPriceOf p pre t → datum_symbol a ∉ stockSymbols p →
  recordDatum closingPriceOf (initialValuesOf p) t a = Throw (TypeError "push").
Proof.
  intros (Hv & _ & _) Ha. unfold recordDatum.
  by rewrite Hv, (decide_False (P := datum_symbol a ∈ stockSymbols p)).
Qed.

Lemma recordDatum_known (t : tally) (pre : list datum) (a : datum) :
  tallied closingPriceOf p pre t → datum_symbol a ∈ stockSymbols p →
  ∃ t', recordDatum closingPriceOf (initialValuesOf p) t a = Normal t'
        ∧ tallied closingPriceOf p (pre ++ [a]) t'.
Proof.
  intros (Hv & Ht & Hi) Ha. unfold recordDatum.
  rewrite Hv, (decide_True (P := datum_symbol a ∈ stockSymbols p)) by done.
  simpl. eexists. split; [done|].
  assert ((if decide (is_Some (initialPrices t !! datum_symbol a))
           then initialPrices t
           else <[datum_symbol a := closingPriceOf a]> (initialPrices t))
            !! datum_symbol a
          = closingPriceOf <$> head (recordsOf (pre ++ [a]) (datum_symbol a)))
    as Hprice.
  { rewrite recordsOf_snoc,
      (decide_True (P := datum_symbol a = datum_symbol a)), head_snoc by done.
    destruct (decide (is_Some (initialPrices t !! datum_symbol a))) as [Hsome|Hnone].
    - rewrite Hi in *. destruct (head (recordsOf pre (datum_symbol a))); [done|].
      by destruct Hsome.
    - rewrite lookup_insert_eq. rewrite Hi in Hnone.
      destruct (head (recordsOf pre (datum_symbol a))); [|done].
      destruct Hnone. by eexists. }
  assert (getAssetValue (closingPriceOf a)
            (Number.ofProperty
               ((if decide (is_Some (initialPrices t !! datum_symbol a))
                 then initialPrices t
                 else <[datum_symbol a := closingPriceOf a]> (initialPrices t))
                  !! datum_symbol a))
            (Number.ofProperty (initialValuesOf p !! datum_symbol a))
          = worth closingPriceOf p (pre ++ [a]) a) as ->.
  { unfold worth. by rewrite Hprice, initialValuesOf_lookup. }
  split_and!; simpl.
  - intros s. destruct (decide (datum_symbol a = s)) as [<-|Hne].
    + rewrite lookup_insert_eq, decide_True by done.
      rewrite recordsOf_snoc, decide_True by done.
      rewrite fmap_app. f_equal. f_equal.
      apply list_fmap_ext. intros i r Hr. f_equal. symmetry. apply worth_snoc.
      apply list_elem_of_lookup_2 in Hr. by apply list_elem_of_filter in Hr as [_ Hr].
    + rewrite lookup_insert_ne, Hv by done.
      destruct (decide (s ∈ stockSymbols p)); [|done].
      rewrite recordsOf_snoc, decide_False by done. f_equal.
      apply list_fmap_ext. intros i r Hr. f_equal. symmetry. apply worth_snoc.
      apply list_elem_of_lookup_2 in Hr. by apply list_elem_of_filter in Hr as [_ Hr].
  - rewrite totalsFrom_snoc, Ht. f_equal.
    apply totalsFrom_ext. intros r Hr. symmetry. by apply worth_snoc.
  - intros s. destruct (decide (datum_symbol a = s)) as [<-|Hne]; [done|].
    rewrite recordsOf_snoc,
      (decide_False (P := datum_symbol a = s)) by done.
    destruct (decide (is_Some (initialPrices t !! datum_symbol a))); [apply Hi|].
    by rewrite lookup_insert_ne.
Qed.

(** The loop completes on records of the plan's symbols. *)
Lemma tally_known (d : list datum) :
  known p d →
  ∃ t, forEach (recordDatum closingPriceOf (initialValuesOf p)) d
         {| valueData := mapOfSymbols [] (stockSymbols p);
            totalValue := []; initialPrices := ∅ |} = Normal t
       ∧ tallied closingPriceOf p d t.
Proof.
  intros Hknown. apply forEach_invariant; [apply tallied_start|].
  intros pre a post t Hd Ht. apply recordDatum_known; [done|].
  apply Hknown. rewrite Hd. apply elem_of_middle.
Qed.

Lemma first_stranger (d : list datum) :
  ¬ known p d →
  ∃ pre a post, d = pre ++ a :: post ∧ known p pre
                ∧ datum_symbol a ∉ stockSymbols p.
Proof.
  unfold known. induction d as [|a d IH]; intros Hd.
  - destruct Hd. intros r Hr. by apply elem_of_nil in Hr.
  - destruct (decide (datum_symbol a ∈ stockSymbols p)) as [Ha|Ha].
    + destruct IH as (pre & b & post & -> & Hpre & Hb).
      { intros Hall. apply Hd. intros r Hr.
        apply elem_of_cons in Hr as [->|Hr]; [done | by apply Hall]. }
      exists (a :: pre), b, post. split_and!; [done| |done].
      intros r Hr. apply elem_of_cons in Hr as [->|Hr]; [done | by apply Hpre].
    + exists [], a, d. split_and!; [done| |done].
      intros r Hr. by apply elem_of_nil in Hr.
Qed.

(** It throws at the first record of a symbol the plan does not hold. *)
Lemma tally_stranger (d : list datum) :
  ¬ known p d →
  forEach (recordDatum closingPriceOf (initialValuesOf p)) d
    {| valueData := mapOfSymbols [] (stockSymbols p);
       totalValue := []; initialPrices := ∅ |} = Throw (TypeError "push").
Proof.
  intros Hd. destruct (first_stranger d Hd) as (pre & a & post & -> & Hpre & Ha).
  rewrite forEach_app.
  destruct (tally_known pre Hpre) as (t & -> & Ht). simpl.
  by rewrite (recordDatum_stranger t pre a Ht Ha).
Qed.

(** The outcome of the loop. *)
Lemma tallyData_spec (stockData : eodResponse) :
  match eod_data stockData with
  | None => tallyData closingPriceOf p stockData = Throw (TypeError "forEach")
  | Some d =>
      if decide (known p d)
      then ∃ t, tallyData closingPriceOf p stockData = Normal t
                ∧ tallied closingPriceOf p d t
      else tallyData closingPriceOf p stockData = Throw (TypeError "push")
  end.
Proof.
  unfold tallyData. destruct (eod_data stockData) as [d|]; [|done]. simpl.
  destruct (decide (known p d)) as [Hd|Hd];
    [by apply tally_known | by apply tally_stranger].
Qed.

End Tally.

(** ** The series and the final values *)

Lemma mapArray_normal {A B} (f : A → completion B) (g : A → B) (l : list A) :
  (∀ a, a ∈ l → f a = Normal (g a)) → mapArray f l = Normal (g <$> l).
Proof.
  induction l as [|a l IH]; intros Hf; [done|].
  simpl. rewrite (Hf a) by (by left). simpl.
  rewrite IH; [done|]. intros b Hb. apply Hf. by right.
Qed.

Lemma mapArray_throws {A B} (f : A → completion B) (l : list A) (e : error) :
  (∀ a e', a ∈ l → f a = Throw e' → e' = e) →
  (∃ a, a ∈ l ∧ f a = Throw e) →
  mapArray f l = Throw e.
Proof.
  induction l as [|a l IH]; intros Hsame (b & Hb & Hthrow).
  { by apply elem_of_nil in Hb. }
  simpl. destruct (f a) as [v|e'] eqn:Hfa; simpl.
  - rewrite IH; [done| |].
    + intros a' e'' Ha'. apply Hsame. by right.
    + apply elem_of_cons in Hb as [->|Hb]; [congruence|]. by exists b.
  - f_equal. apply (Hsame a); [by left | done].
Qed.

Section Series.

Variable closingPriceOf : datum → float.
Variable p : portfolio.
Variable d : list datum.
Variable t : tally.
Hypothesis Htallied : tallied closingPriceOf p d t.

Lemma seriesOf_tallied :
  seriesOf (stockSymbols p) t =
    Normal ((symbolSeries closingPriceOf p d <$> stockSymbols p)
              ++ [totalSeries closingPriceOf p d]).
Proof.
  destruct Htallied as (Hv & Ht & _). unfold seriesOf.
  rewrite (mapArray_normal _ (symbolSeries closingPriceOf p d)).
  - simpl. unfold totalSeries. by rewrite Ht.
  - intros s Hs. rewrite Hv, decide_True by done. simpl.
    unfold symbolSeries. by rewrite <- list_fmap_compose.
Qed.

Lemma finalValueOf_tallied (s : string) :
  s ∈ stockSymbols p →
  finalValueOf t s =
    if decide (recordsOf d s = []) then Throw (TypeError "value")
    else Normal (finalStockValue closingPriceOf p d s).
Proof.
  intros Hs. destruct Htallied as (Hv & _ & _). unfold finalValueOf.
  rewrite Hv, decide_True by done. simpl.
  rewrite fmap_last. unfold finalStockValue.
  destruct (decide (recordsOf d s = [])) as [->|Hne]; [done|].
  destruct (last (recordsOf d s)) as [r|] eqn:Hlast; [done|].
  by apply last_None in Hlast.
Qed.

Lemma finalValues_complete :
  (∀ s, s ∈ stockSymbols p → recordsOf d s ≠ []) →
  mapArray (finalValueOf t) (stockSymbols p) =
    Normal (finalStockValue closingPriceOf p d <$> stockSymbols p).
Proof.
  intros Hall. apply mapArray_normal. intros s Hs.
  rewrite finalValueOf_tallied by done. by rewrite decide_False by (by apply Hall).
Qed.

Lemma finalValues_missing (s : string) :
  s ∈ stockSymbols p → recordsOf d s = [] →
  mapArray (finalValueOf t) (stockSymbols p) = Throw (TypeError "value").
Proof.
  intros Hs Hnone. apply mapArray_throws.
  - intros s' e' Hs'. rewrite finalValueOf_tallied by done.
    destruct (decide (recordsOf d s' = [])); congruence.
  - exists s. split; [done|]. rewrite finalValueOf_tallied by done.
    by rewrite decide_True.
Qed.

End Series.

Lemma not_covered (p : portfolio) (d : list datum) :
  ¬ covered p d → ∃ s, s ∈ stockSymbols p ∧ recordsOf d s = [].
Proof.
  unfold covered. induction (stockSymbols p) as [|s l IH]; intros Hnot.
  - destruct Hnot. intros s Hs. by apply elem_of_nil in Hs.
  - destruct (decide (recordsOf d s = [])) as [Hs|Hs].
    + exists s. split; [by left | done].
    + destruct IH as (s' & Hs' & Hnone).
      { intros Hall. apply Hnot. intros s' Hs'.
        apply elem_of_cons in Hs' as [->|Hs']; [done | by apply Hall]. }
      exists s'. split; [by right | done].
Qed.

(** ** The outcomes of a run *)

Lemma updateChart_outcome (sampleData : eodResponse) (p : portfolio)
    (response : eodResponse) (c : component) :
  updateChart sampleData p response c =
    let c0 := setIsLoading true c in
    match eod_data sampleData with
    | None => (c0, Throw (TypeError "forEach"))
    | Some d =>
        if decide (known p d) then
          let c1 :=
            setChartSeries
              (Some <$> (symbolSeries adj_close p d <$> stockSymbols p)
                          ++ [totalSeries adj_close p d]) c0 in
          match last (totalsFrom (worth adj_close p d) [] d) with
          | None => (c1, Throw (TypeError "value"))
          | Some latest =>
              let c2 := setFinalTotalValue (dated_value latest) c1 in
              if decide (covered p d) then
                (setIsLoading false
                   (setChartLoaded true
                      (setFinalStockValues
                         (finalStockValue adj_close p d <$> stockSymbols p) c2)),
                 Normal ())
              else (c2, Throw (TypeError "value"))
          end
        else (c0, Throw (TypeError "push"))
    end.
Proof.
  pose proof (tallyData_spec adj_close p sampleData) as Hspec.
  unfold updateChart, getStockData, usingSampleData. cbv zeta iota.
  destruct (eod_data sampleData) as [d|]; [|by rewrite Hspec].
  destruct (decide (known p d)) as [Hknown|Hstranger]; [|by rewrite Hspec].
  destruct Hspec as (t & -> & Htallied).
  rewrite (seriesOf_tallied _ _ _ _ Htallied).
  rewrite (proj1 (proj2 Htallied)).
  destruct (last (totalsFrom (worth adj_close p d) [] d)) as [latest|]; [|done].
  simpl. destruct (decide (covered p d)) as [Hall|Hnot].
  - by rewrite (finalValues_complete _ _ _ _ Htallied Hall).
  - destruct (not_covered _ _ Hnot) as (s & Hs & Hnone).
    by rewrite (finalValues_missing _ _ _ _ Htallied s Hs Hnone).
Qed.

Lemma page_updateChart_outcome (sampleData : eodResponse) (p : portfolio)
    (response : eodResponse) (c : component) :
  Page.updateChart sampleData p response c =
    match eod_data sampleData with
    | None => (c, Throw (TypeError "forEach"))
    | Some d =>
        if decide (known p d) then
          let c1 :=
            setChartSeries
              (Some <$> (symbolSeries datum_close p d <$> stockSymbols p)
                          ++ [totalSeries datum_close p d]) c in
          match last (totalsFrom (worth datum_close p d) [] d) with
          | None => (c1, Throw (TypeError "value"))
          | Some latest =>
              (setChartLoaded true (setFinalTotalValue (dated_value latest) c1),
               Normal ())
          end
        else (c, Throw (TypeError "push"))
    end.
Proof.
  pose proof (tallyData_spec datum_close p sampleData) as Hspec.
  unfold Page.updateChart, getStockData, usingSampleData. cbv zeta iota.
  destruct (eod_data sampleData) as [d|]; [|by rewrite Hspec].
  destruct (decide (known p d)) as [Hknown|Hstranger]; [|by rewrite Hspec].
  destruct Hspec as (t & -> & Htallied).
  rewrite (seriesOf_tallied _ _ _ _ Htallied).
  rewrite (proj1 (proj2 Htallied)).
  by destruct (last (totalsFrom (worth datum_close p d) [] d)) as [latest|].
Qed.

(** ** Properties of the Marketstack component *)

(** X9: a run of the Marketstack [updateChart] completes exactly when the
    data is chartable: the response has a data array, the array is not
    empty, every record is of a symbol of the plan and every symbol of the
    plan has a record. *)
Theorem marketstack_completes_iff_chartable (sampleData : eodResponse)
    (p : portfolio) (response : eodResponse) (c : component) :
  (updateChart sampleData p response c).2 = Normal () ↔ chartable p sampleData.
Proof.
  rewrite updateChart_outcome. unfold chartable. cbv zeta.
  destruct (eod_data sampleData) as [d|].
  - destruct (decide (known p d)) as [Hknown|Hstranger].
    + pose proof (totalsFrom_last_None (worth adj_close p d) d) as Hnone.
      destruct (last (totalsFrom (worth adj_close p d) [] d)) as [latest|].
      * assert (d ≠ []) as Hne.
        { intros Hd. by apply Hnone in Hd. }
        destruct (decide (covered p d)) as [Hall|Hnot]; simpl.
        -- split; [|done]. intros _. by exists d.
        -- split; [done|]. by intros (d' & [= <-] & _ & _ & Hall).
      * simpl. split; [done|].
        intros (d' & [= <-] & Hne & _). destruct Hne. by apply Hnone.
    + simpl. split; [done|]. by intros (d' & [= <-] & _ & Hknown & _).
  - simpl. split; [done|]. by intros (d' & [=] & _).
Qed.

Example marketstack_completes_scenario :
  (updateChart Scenario2.eodXY Scenario.planXY Scenario2.eodEmpty mounted).2
    = Normal ()
  ∧ (updateChart Scenario2.eodLate Scenario.planXY Scenario2.eodEmpty mounted).2
    = Normal ()
  ∧ (updateChart Scenario2.eodStranger Scenario.planXY Scenario2.eodEmpty mounted).2
    = Throw (TypeError "push")
  ∧ (updateChart Scenario2.eodOnlyX Scenario.planXY Scenario2.eodEmpty mounted).2
    = Throw (TypeError "value").
Proof. split_and!; evaluated. Qed.

(** X10: a run of the Marketstack [updateChart] that throws leaves
    [isLoading] set: the component shows its loading text and neither the
    chart nor the button, and [chartLoaded] and [finalStockValues] are as
    before the run. *)
Theorem marketstack_failure_keeps_loading (sampleData : eodResponse)
    (p : portfolio) (response : eodResponse) (c : component) (e : error) :
  (updateChart sampleData p response c).2 = Throw e →
  let c' := (updateChart sampleData p response c).1 in
  isLoading c' = true
  ∧ chartRendered c' = false
  ∧ chartLoaded c' = chartLoaded c
  ∧ finalStockValues c' = finalStockValues c.
Proof.
  rewrite updateChart_outcome. cbv zeta.
  destruct (eod_data sampleData) as [d|]; [|done].
  destruct (decide (known p d)); [|done].
  destruct (last (totalsFrom (worth adj_close p d) [] d)) as [latest|]; [|done].
  by destruct (decide (covered p d)).
Qed.

Lemma marketstack_failure_witness :
  let run := updateChart Scenario2.eodStranger Scenario.planXY Scenario2.eodEmpty
               mounted in
  run.2 = Throw (TypeError "push")
  ∧ isLoading run.1 = true
  ∧ chartRendered run.1 = false
  ∧ chartLoaded run.1 = chartLoaded mounted
  ∧ finalStockValues run.1 = finalStockValues mounted.
Proof.
  split; [evaluated|].
  apply (marketstack_failure_keeps_loading Scenario2.eodStranger Scenario.planXY
           Scenario2.eodEmpty mounted (TypeError "push")).
  evaluated.
Defined.

(** X11: when every record is of a symbol of the plan, the run sets the
    chart series to one series per listed symbol, in the order of the plan,
    then the series named Total Value.  A symbol's series has a point per
    record of the symbol, in the order of the data: the record's date, and
    its adjusted close times the amount invested over the adjusted close of
    the symbol's first record, written with two decimals. *)
Theorem marketstack_series (sampleData : eodResponse) (p : portfolio)
    (response : eodResponse) (c : component) (d : list datum) :
  eod_data sampleData = Some d →
  known p d →
  chartSeries (updateChart sampleData p response c).1 =
    Some (Some <$> (symbolSeries adj_close p d <$> stockSymbols p)
                     ++ [totalSeries adj_close p d]).
Proof.
  intros Hd Hknown. rewrite updateChart_outcome, Hd. cbv zeta.
  rewrite decide_True by done.
  destruct (last (totalsFrom (worth adj_close p d) [] d)) as [latest|]; [|done].
  by destruct (decide (covered p d)).
Qed.

Lemma marketstack_series_witness :
  ∃ d, eod_data Scenario2.eodXY = Some d
       ∧ chartSeries
           (updateChart Scenario2.eodXY Scenario.planXY Scenario2.eodEmpty mounted).1
         = Some (Some <$> (symbolSeries adj_close Scenario.planXY d
                             <$> stockSymbols Scenario.planXY)
                          ++ [totalSeries adj_close Scenario.planXY d]).
Proof.
  eexists. split; [reflexivity|].
  apply (marketstack_series Scenario2.eodXY Scenario.planXY Scenario2.eodEmpty
           mounted); [reflexivity | decided].
Defined.

Example marketstack_series_scenario :
  chartSeries (updateChart Scenario2.eodXY Scenario.planXY Scenario2.eodEmpty mounted).1
  = Some [Some {| name := "X"; type := "area";
                  data := [{| x := Scenario.d1; y := "100.00" |};
                           {| x := Scenario.d2; y := "200.00" |}] |};
          Some {| name := "Y"; type := "area";
                  data := [{| x := Scenario.d1; y := "100.00" |};
                           {| x := Scenario.d2; y := "100.00" |}] |};
          Some {| name := "Total Value"; type := "area";
                  data := [{| x := Scenario.d1; y := "200.00" |};
                           {| x := Scenario.d2; y := "300.00" |}] |}].
Proof. evaluated. Qed.

(** X12: the Total Value series has one point per run of consecutive
    records of one date, in the order of the data: its dates are the dates
    of the records with adjacent repetitions removed, so a date that comes
    back after another date gets a second point. *)
Theorem marketstack_total_dates (sampleData : eodResponse) (p : portfolio)
    (response : eodResponse) (c : component) (d : list datum) :
  eod_data sampleData = Some d →
  known p d →
  ∃ symbolSeries total,
    chartSeries (updateChart sampleData p response c).1
      = Some (symbolSeries ++ [Some total])
    ∧ name total = "Total Value"
    ∧ x <$> data total = squeeze (datum_date <$> d).
Proof.
  intros Hd Hknown.
  assert (chartSeries (updateChart sampleData p response c).1 =
            Some (Some <$> (symbolSeries adj_close p d <$> stockSymbols p)
                             ++ [totalSeries adj_close p d])) as ->.
  { rewrite updateChart_outcome, Hd. cbv zeta. rewrite decide_True by done.
    destruct (last (totalsFrom (worth adj_close p d) [] d)) as [latest|]; [|done].
    by destruct (decide (covered p d)). }
  eexists _, _. rewrite fmap_app. split; [done|]. split; [done|].
  simpl. rewrite <- list_fmap_compose.
  by rewrite <- (totalsFrom_dates (worth adj_close p d)).
Qed.

Lemma marketstack_total_dates_witness :
  ∃ d symbolSeries total,
    eod_data Scenario2.eodXY = Some d
    ∧ chartSeries
        (updateChart Scenario2.eodXY Scenario.planXY Scenario2.eodEmpty mounted).1
      = Some (symbolSeries ++ [Some total])
    ∧ name total = "Total Value"
    ∧ x <$> data total = squeeze (datum_date <$> d).
Proof.
  eexists.
  destruct (marketstack_total_dates Scenario2.eodXY Scenario.planXY
              Scenario2.eodEmpty mounted _ eq_refl) as (ss & total & H);
    [decided|].
  by exists ss, total.
Defined.

(** X13: the point of the Total Value series for a run of consecutive
    records of one date carries the sum of the worths of the records of the
    run, added in the order of the data from 0: the total of a date counts
    the symbols that have a record on that date and no other. *)
Theorem marketstack_total_of_a_date (sampleData : eodResponse) (p : portfolio)
    (response : eodResponse) (c : component)
    (before run after : list datum) (date : string) :
  let d := before ++ run ++ after in
  eod_data sampleData = Some d →
  known p d →
  run ≠ [] →
  (∀ r, r ∈ run → datum_date r = date) →
  (∀ r, last before = Some r → datum_date r ≠ date) →
  (∀ r, head after = Some r → datum_date r ≠ date) →
  ∃ symbolSeries total,
    chartSeries (updateChart sampleData p response c).1
      = Some (symbolSeries ++ [Some total])
    ∧ data total !! length (squeeze (datum_date <$> before))
      = Some {| x := date;
                y := Number.toFixed2 (sumOf (worth adj_close p d) run) |}.
Proof.
  intros d Hd Hknown Hne Hdate Hbefore Hafter.
  assert (chartSeries (updateChart sampleData p response c).1 =
            Some (Some <$> (symbolSeries adj_close p d <$> stockSymbols p)
                             ++ [totalSeries adj_close p d])) as ->.
  { rewrite updateChart_outcome, Hd. cbv zeta. rewrite decide_True by done.
    destruct (last (totalsFrom (worth adj_close p d) [] d)) as [latest|]; [|done].
    by destruct (decide (covered p d)). }
  eexists _, _. rewrite fmap_app. split; [done|].
  simpl. rewrite list_lookup_fmap. subst d.
  by rewrite (totals_of_a_run _ before run after date).
Qed.

Lemma marketstack_total_of_a_date_witness :
  let before := [Scenario2.eod Scenario.d1 "X" 100; Scenario2.eod Scenario.d1 "Y" 50] in
  let run := [Scenario2.eod Scenario.d2 "X" 200; Scenario2.eod Scenario.d2 "Y" 50] in
  ∃ symbolSeries total,
    chartSeries
      (updateChart Scenario2.eodXY Scenario.planXY Scenario2.eodEmpty mounted).1
      = Some (symbolSeries ++ [Some total])
    ∧ data total !! length (squeeze (datum_date <$> before))
      = Some {| x := Scenario.d2;
                y := Number.toFixed2
                       (sumOf (worth adj_close Scenario.planXY (before ++ run ++ []))
                              run) |}.
Proof.
  intros before run.
  apply (marketstack_total_of_a_date Scenario2.eodXY Scenario.planXY
           Scenario2.eodEmpty mounted before run [] Scenario.d2).
  - reflexivity.
  - decided.
  - done.
  - intros r Hr. repeat (apply elem_of_cons in Hr as [->|Hr]; [done|]).
    by apply elem_of_nil in Hr.
  - by intros r [= <-].
  - by intros r [=].
Defined.

(** X14: after a run that completes the chart is rendered, the final
    value of every listed symbol is the worth of the symbol's last record,
    and the final total is the sum of the worths of the last run of records
    of one date, so it leaves out a symbol that has no record on the last
    date. *)
Theorem marketstack_final_values (sampleData : eodResponse) (p : portfolio)
    (response : eodResponse) (c : component)
    (before run : list datum) (date : string) :
  let d := before ++ run in
  let c' := (updateChart sampleData p response c).1 in
  eod_data sampleData = Some d →
  (updateChart sampleData p response c).2 = Normal () →
  run ≠ [] →
  (∀ r, r ∈ run → datum_date r = date) →
  (∀ r, last before = Some r → datum_date r ≠ date) →
  chartRendered c' = true
  ∧ finalTotalValue c' = sumOf (worth adj_close p d) run
  ∧ finalStockValues c' = finalStockValue adj_close p d <$> stockSymbols p.
Proof.
  intros d c' Hd Hdone Hne Hdate Hbefore. subst c'. revert Hdone.
  rewrite updateChart_outcome, Hd. cbv zeta.
  destruct (decide (known p d)); [|done]. subst d.
  rewrite (totals_last_run _ before run date Hne Hdate Hbefore).
  by destruct (decide (covered p (before ++ run))).
Qed.

Lemma marketstack_final_values_witness :
  let before := [Scenario2.eod Scenario.d1 "X" 100; Scenario2.eod Scenario.d1 "Y" 50] in
  let run := [Scenario2.eod Scenario.d2 "X" 200] in
  let c' := (updateChart Scenario2.eodLate Scenario.planXY Scenario2.eodEmpty
               mounted).1 in
  chartRendered c' = true
  ∧ finalTotalValue c' = sumOf (worth adj_close Scenario.planXY (before ++ run)) run
  ∧ finalStockValues c'
    = finalStockValue adj_close Scenario.planXY (before ++ run)
        <$> stockSymbols Scenario.planXY.
Proof.
  intros before run.
  apply (marketstack_final_values Scenario2.eodLate Scenario.planXY
           Scenario2.eodEmpty mounted before run Scenario.d2).
  - reflexivity.
  - evaluated.
  - done.
  - intros r Hr. repeat (apply elem_of_cons in Hr as [->|Hr]; [done|]).
    by apply elem_of_nil in Hr.
  - by intros r [= <-].
Defined.

(** With Y unquoted on the last date the final total is X's 200 alone,
    beside final values of 200 for X and 100 for Y. *)
Example marketstack_final_values_scenario :
  let c' := (updateChart Scenario2.eodLate Scenario.planXY Scenario2.eodEmpty
               mounted).1 in
  Number.toFixed2 (finalTotalValue c') = "200.00"
  ∧ (λ v, (sv_symbol v, Number.toFixed2 <$> sv_value v)) <$> finalStockValues c'
    = [("X", Some "200.00"); ("Y", Some "100.00")].
Proof. split; evaluated. Qed.

(** X15: on an empty data array the run sets the chart series, every one
    of them empty, and then throws on reading the last total: the loading
    flag stays set. *)
Theorem marketstack_empty_data (sampleData : eodResponse) (p : portfolio)
    (response : eodResponse) (c : component) :
  eod_data sampleData = Some [] →
  updateChart sampleData p response c =
    (setChartSeries
       (Some <$> ((λ s, {| name := s; type := "area"; data := [] |})
                    <$> stockSymbols p)
                 ++ [{| name := "Total Value"; type := "area"; data := [] |}])
       (setIsLoading true c),
     Throw (TypeError "value")).
Proof.
  intros Hd. rewrite updateChart_outcome, Hd. cbv zeta.
  rewrite decide_True; [done|].
  intros r Hr. by apply elem_of_nil in Hr.
Qed.

Lemma marketstack_empty_data_witness :
  updateChart Scenario2.eodEmpty Scenario.planXY Scenario2.eodXY mounted =
    (setChartSeries
       [Some {| name := "X"; type := "area"; data := [] |};
        Some {| name := "Y"; type := "area"; data := [] |};
        Some {| name := "Total Value"; type := "area"; data := [] |}]
       (setIsLoading true mounted),
     Throw (TypeError "value")).
Proof.
  by apply (marketstack_empty_data Scenario2.eodEmpty Scenario.planXY
              Scenario2.eodXY mounted).
Defined.

(** X16: a record of a symbol the plan does not list makes the run throw at
    the push onto the symbol's missing array, before any state but the
    loading flag is set. *)
Theorem marketstack_unlisted_symbol_throws (sampleData : eodResponse)
    (p : portfolio) (response : eodResponse) (c : component)
    (d : list datum) (r : datum) :
  eod_data sampleData = Some d →
  r ∈ d →
  datum_symbol r ∉ stockSymbols p →
  updateChart sampleData p response c
    = (setIsLoading true c, Throw (TypeError "push")).
Proof.
  intros Hd Hr Hstranger. rewrite updateChart_outcome, Hd. cbv zeta.
  rewrite decide_False; [done|]. intros Hknown. by apply Hstranger, Hknown.
Qed.

Lemma marketstack_unlisted_symbol_witness :
  updateChart Scenario2.eodStranger Scenario.planXY Scenario2.eodEmpty mounted
    = (setIsLoading true mounted, Throw (TypeError "push")).
Proof.
  apply (marketstack_unlisted_symbol_throws Scenario2.eodStranger Scenario.planXY
           Scenario2.eodEmpty mounted
           [Scenario2.eod Scenario.d1 "X" 100; Scenario2.eod Scenario.d1 "Z" 50]
           (Scenario2.eod Scenario.d1 "Z" 50)).
  - reflexivity.
  - apply elem_of_cons. right. by left.
  - decided.
Defined.

(** X17: the page module's copy of [updateChart] completes exactly when
    the response has a data array that is not empty and whose records are
    all of symbols of the plan: unlike the component's, it is not stopped
    by a symbol of the plan that has no record. *)
Theorem page_completes_iff (sampleData : eodResponse) (p : portfolio)
    (response : eodResponse) (c : component) :
  (Page.updateChart sampleData p response c).2 = Normal ()
  ↔ ∃ d, eod_data sampleData = Some d ∧ d ≠ [] ∧ known p d.
Proof.
  rewrite page_updateChart_outcome.
  destruct (eod_data sampleData) as [d|].
  - destruct (decide (known p d)) as [Hknown|Hstranger].
    + pose proof (totalsFrom_last_None (worth datum_close p d) d) as Hnone.
      cbv zeta.
      destruct (last (totalsFrom (worth datum_close p d) [] d)) as [latest|]; simpl.
      * split; [|done]. intros _. exists d. split_and!; [done| |done].
        intros Hd. by apply Hnone in Hd.
      * split; [done|].
        intros (d' & [= <-] & Hne & _). destruct Hne. by apply Hnone.
    + simpl. split; [done|]. by intros (d' & [= <-] & _ & Hknown).
  - simpl. split; [done|]. by intros (d' & [=] & _).
Qed.

(** Data without a record of Y: the page's copy charts it, with an empty
    series for Y; the component's throws. *)
Example page_completes_scenario :
  let run := Page.updateChart Scenario2.eodOnlyX Scenario.planXY Scenario2.eodEmpty
               mounted in
  run.2 = Normal ()
  ∧ Page.chartRendered run.1 = true
  ∧ chartSeries run.1
    = Some [Some {| name := "X"; type := "area";
                    data := [{| x := Scenario.d1; y := "100.00" |};
                             {| x := Scenario.d2; y := "200.00" |}] |};
            Some {| name := "Y"; type := "area"; data := [] |};
            Some {| name := "Total Value"; type := "area";
                    data := [{| x := Scenario.d1; y := "100.00" |};
                             {| x := Scenario.d2; y := "200.00" |}] |}]
  ∧ (updateChart Scenario2.eodOnlyX Scenario.planXY Scenario2.eodEmpty mounted).2
    = Throw (TypeError "value").
Proof. split_and!; evaluated. Qed.
